(** * PnpmPackageManager: the pnpm adapter of the package-manager package

    A shallow embedding of [packages/package-manager/src/PnpmPackageManager.ts]:
    the stdout line filter [PnpmStdoutTransform], the argument vectors built
    by the public operations, and the way [_runAsync] logs, spawns and pipes.

    JavaScript strings are sequences of UTF-16 code units, regular
    expressions are run by a backtracking matcher that follows the order of
    ECMAScript, objects used as dictionaries are [gmap]s, and the effects of
    the asynchronous methods are threaded through a state and error monad
    over a [World] that records what the process did. *)

From Stdlib Require Import NArith Ascii String Lia.
From stdpp Require Import base gmap strings list.

(** ** JavaScript strings *)

Module JS.

(** A string value: its UTF-16 code units. *)
Definition jsstring := list N.

(** A source literal (ASCII only) as a string value. *)
Definition js (s : string) : jsstring := map N_of_ascii (list_ascii_of_string s).

(** [!line]: only the empty string is falsy. *)
Definition falsy_string (s : jsstring) : bool :=
  match s with [] => true | _ :: _ => false end.

(** WhiteSpace and LineTerminator code units, the ones [trim] strips. *)
Definition isWhiteSpace (c : N) : bool :=
  ((9 <=? c) && (c <=? 13) || (c =? 32) || (c =? 160) || (c =? 5760)
   || (8192 <=? c) && (c <=? 8202) || (c =? 8232) || (c =? 8233)
   || (c =? 8239) || (c =? 8287) || (c =? 12288) || (c =? 65279))%N.

Fixpoint trimStart (s : jsstring) : jsstring :=
  match s with
  | c :: t => if isWhiteSpace c then trimStart t else s
  | [] => []
  end.

(** [String.prototype.trim] *)
Definition trim (s : jsstring) : jsstring :=
  rev (trimStart (rev (trimStart s))).

(** [Array.prototype.join] on strings that hold command-line words. *)
Definition join (sep : string) (l : list string) : string := String.concat sep l.

End JS.
Export JS.

(** ** Regular expressions *)

Module RegExp.

(** The fragment of the pattern language that the source uses. *)
Inductive regex : Type :=
| Empty                          (* the empty pattern *)
| Class (p : N -> bool)          (* one code unit of a class *)
| Seq (r1 r2 : regex)            (* r1 r2 *)
| Alt (r1 r2 : regex)            (* r1|r2 *)
| Star (r : regex).              (* r*, greedy *)

Definition Chr (c : N) : regex := Class (N.eqb c).
Definition Opt (r : regex) : regex := Alt r Empty.             (* r? *)
Definition Plus (r : regex) : regex := Seq r (Star r).         (* r+ *)

(** A literal run of characters. *)
Fixpoint Lit (s : jsstring) : regex :=
  match s with
  | [] => Empty
  | c :: t => Seq (Chr c) (Lit t)
  end.

(** [.] without the [s] flag: anything but a line terminator. *)
Definition Dot : regex :=
  Class (fun c => negb ((c =? 10) || (c =? 13) || (c =? 8232) || (c =? 8233))%N).

(** [backtrack r s] lists what is left of [s] after each way [r] can match
    a prefix of it, in the order in which a backtracking matcher tries
    them: the left alternative first, the longer repetition first.  An
    iteration of [r*] that consumes nothing is rejected, as RepeatMatcher
    does. *)
Fixpoint backtrack (r : regex) (s : jsstring) : list jsstring :=
  match r with
  | Empty => [s]
  | Class p =>
      match s with
      | c :: t => if p c then [t] else []
      | [] => []
      end
  | Seq a b => flat_map (backtrack b) (backtrack a s)
  | Alt a b => backtrack a s ++ backtrack b s
  | Star a =>
      (fix iter (n : nat) (s : jsstring) {struct n} : list jsstring :=
         match n with
         | O => [s]
         | S n' =>
             flat_map (fun s' => if length s' <? length s then iter n' s' else [])
                      (backtrack a s) ++ [s]
         end) (length s) s
  end.

(** The scan of RegExpBuiltinExec for a pattern that is not sticky: try
    the position at hand, then move one code unit to the right.  [n] is
    the length of the whole subject, the result is the end index of the
    match. *)
Fixpoint scan (r : regex) (n : nat) (s : jsstring) : option nat :=
  match backtrack r s with
  | rest :: _ => Some (n - length rest)
  | [] =>
      match s with
      | [] => None
      | _ :: t => scan r n t
      end
  end.

(** A RegExp object created with the [g] flag: the only part of it that
    changes is [lastIndex]. *)
Record RegExpObject : Type := mkRegExp { source : regex; lastIndex : nat }.

(** [RegExp.prototype.exec] for a global pattern, as far as [test] needs
    it: the search starts at [lastIndex]; a match moves [lastIndex] to its
    end, a failure sets it to [0]. *)
Definition exec (re : RegExpObject) (s : jsstring) : option nat :=
  if length s <? lastIndex re then None
  else scan (source re) (length s) (drop (lastIndex re) s).

(** [re.test(s)]: the answer and the object afterwards. *)
Definition test (re : RegExpObject) (s : jsstring) : bool * RegExpObject :=
  match exec re s with
  | Some e => (true, mkRegExp (source re) e)
  | None => (false, mkRegExp (source re) 0)
  end.

End RegExp.
Export RegExp.

(** ** The peer dependency warning pattern (lines 13-17) *)

(** The pattern of the [ansi-regex] package (5.0.1), which is a dependency
    and not part of this file.  With E for the class of ESC and CSI
    (u001B, u009B), I for the class of the characters [ ] ( ) # ; ?, P for
    the class [-a-zA-Z0-9/#&.:=?%@~_], A for [a-zA-Z0-9], D for a digit
    and F for the class [0-9A-PR-TZcf-ntqry=><~], it reads
      E I* ( [ {;P+}* | A+ {;P*}* ]? BEL  |  [ D{1,4} {;D{0,4}}* ]? F )
    where braces and square brackets group, as the parentheses do.
    The results below take the pattern as a parameter; this one is used
    where a line is evaluated. *)
Module AnsiRegex.

Definition between (lo hi c : N) : bool := ((lo <=? c) && (c <=? hi))%N.
Definition one_of (s : string) (c : N) : bool :=
  existsb (N.eqb c) (js s).

Definition digit (c : N) : bool := between 48 57 c.
Definition alnum (c : N) : bool := between 97 122 c || between 65 90 c || digit c.
(* P *)
Definition param (c : N) : bool := alnum c || one_of "-/#&.:=?%@~_" c.
(* F *)
Definition final (c : N) : bool :=
  digit c || between 65 80 c || between 82 84 c || between 102 110 c
  || one_of "Zctqry=><~" c.

(* D{1,4} and D{0,4} *)
Definition digits_1_4 : regex :=
  Seq (Class digit) (Opt (Seq (Class digit) (Opt (Seq (Class digit) (Opt (Class digit)))))).
Definition digits_0_4 : regex := Opt digits_1_4.

Definition semi : regex := Chr 59.

Definition source : regex :=
  Seq (Class (fun c => (c =? 27) || (c =? 155))%N)
 (Seq (Star (Class (one_of "[]()#;?")))
      (Alt
         (* [ {;P+}* | A+ {;P*}* ]? BEL *)
         (Seq (Opt (Alt (Star (Seq semi (Plus (Class param))))
                        (Seq (Plus (Class alnum)) (Star (Seq semi (Star (Class param)))))))
              (Chr 7))
         (* [ D{1,4} {;D{0,4}}* ]? F *)
         (Seq (Opt (Seq digits_1_4 (Star (Seq semi digits_0_4))))
              (Class final)))).

End AnsiRegex.

(** [const ansi = `(?:${ansiRegex().source})*`] and the pattern built from
    it, [${ansi}WARN${ansi}.*Issues with peer dependencies found]. *)
Definition ansi (ansiSource : regex) : regex := Star ansiSource.

Definition startPnpmPeerDependencyWarningSource (ansiSource : regex) : regex :=
  Seq (ansi ansiSource)
 (Seq (Lit (js "WARN"))
 (Seq (ansi ansiSource)
 (Seq (Star Dot)
      (Lit (js "Issues with peer dependencies found"))))).

(** The module-level object, as [new RegExp(..., 'g')] leaves it. *)
Definition startPnpmPeerDependencyWarningPattern (ansiSource : regex) : RegExpObject :=
  mkRegExp (startPnpmPeerDependencyWarningSource ansiSource) 0.

(** ** PnpmStdoutTransform (lines 20-42) *)

Module Transform.

(** The instance state: [private isPeerDepsWarning = false]. *)
Record PnpmStdoutTransform : Type := mkTransform { isPeerDepsWarning : bool }.

(** [new PnpmStdoutTransform()] *)
Definition new : PnpmStdoutTransform := mkTransform false.

(** [_transform(chunk, encoding, callback)] with [line = chunk.toString()].
    The pattern object [re] belongs to the module and is shared by every
    instance, so it is passed in and handed back.  [&&] evaluates
    [test] only when the flag is down.  The result lists the arguments
    of [this.push], in order. *)
Definition _transform (line : jsstring) (this : PnpmStdoutTransform) (re : RegExpObject)
  : PnpmStdoutTransform * RegExpObject * list jsstring :=
  let '(found, re') :=
    if negb (isPeerDepsWarning this) then test re line else (false, re) in
  let this' :=
    if found then mkTransform true
    else if isPeerDepsWarning this && falsy_string line then mkTransform false
    else this in
  (this', re', if negb (isPeerDepsWarning this') then [line] else []).

(** Writing the chunks [lines] to the transform, one after the other. *)
Fixpoint write_all (lines : list jsstring) (this : PnpmStdoutTransform) (re : RegExpObject)
  : PnpmStdoutTransform * RegExpObject * list jsstring :=
  match lines with
  | [] => (this, re, [])
  | line :: rest =>
      let '(this1, re1, out1) := _transform line this re in
      let '(this2, re2, out2) := write_all rest this1 re1 in
      (this2, re2, out1 ++ out2)
  end.

(** What a byte-mode [Readable] hands to its consumer: [push] of a chunk
    of length zero adds nothing to the read buffer. *)
Definition data (pushed : list jsstring) : list jsstring :=
  List.filter (fun chunk => negb (falsy_string chunk)) pushed.

(** The text of a run of chunks. *)
Definition text (chunks : list jsstring) : jsstring := concat chunks.

(** One stream through a new instance: what comes out of it, and the
    pattern object afterwards. *)
Definition run (re : RegExpObject) (lines : list jsstring) : list jsstring * RegExpObject :=
  let '(_, re', out) := write_all lines new re in (data out, re').

(** The pieces [String.prototype.split] cuts at [/\r?\n/]; [cur] is the
    piece being read, in reverse. *)
Fixpoint pieces (s : jsstring) (cur : jsstring) : list jsstring :=
  match s with
  | [] => [rev cur]
  | 13%N :: 10%N :: t => rev cur :: pieces t []
  | 10%N :: t => rev cur :: pieces t []
  | c :: t => pieces t (c :: cur)
  end.

(** [split(/\r?\n/, (line) => line + '\n')] of the [split] package, over
    the whole text of a stream: every piece, the last one too, goes
    through the mapper. *)
Definition split (stream : jsstring) : list jsstring :=
  map (fun line => line ++ js (String (ascii_of_nat 10) EmptyString)) (pieces stream []).

End Transform.
Export Transform.

(** ** What the module takes from its surroundings *)

(** One run of an external program, as far as this file looks at it. *)
Record Execution : Type := mkExecution { exec_stdout : jsstring; exit_code : nat }.

(** The imports the file does not define itself, and the process the
    module runs in: the pattern of [ansi-regex], [DISABLE_ADS_ENV] of
    [./NodePackageManagers], [process.env], [path.join], the file system
    behind [fs.existsSync] and [rimraf.sync], and what a command prints
    when the operating system runs it with an environment and a working
    directory. *)
Class Platform : Type := {
  ansiSource : regex;
  DISABLE_ADS_ENV : gmap string string;
  process_env : gmap string string;
  path_join : string -> string -> string;
  FS : Type;
  existsSync : string -> FS -> bool;
  rimraf_sync : string -> FS -> FS;
  execute : string -> list string -> gmap string string -> option string -> Execution
}.

(** ** Spawning (the types of [@expo/spawn-async]) *)

Inductive StdioKind : Type := inherit | pipe | ignore.

(** [stdio: 'pipe'] or [stdio: ['inherit', 'inherit', 'pipe']] *)
Inductive Stdio : Type :=
| StdioAll (k : StdioKind)
| StdioList (stdin stdout stderr : StdioKind).

(** [SpawnOptions]: every field may be missing. *)
Record SpawnOptions : Type := mkSpawnOptions {
  env : option (gmap string string);
  cwd : option string;
  stdio : option Stdio;
  ignoreStdio : option bool
}.

(** [{ ...options, ignoreStdio: b }] *)
Definition with_ignoreStdio (b : bool) (o : SpawnOptions) : SpawnOptions :=
  mkSpawnOptions (env o) (cwd o) (stdio o) (Some b).

(** Truthiness of an optional boolean and of an optional string. *)
Definition truthy (o : option bool) : bool :=
  match o with Some true => true | _ => false end.

Definition truthy_string (o : option string) : bool :=
  match o with
  | Some EmptyString | None => false
  | Some (String _ _) => true
  end.

Inductive Error : Type :=
| AssertionError (message : string)
| SpawnError (status : nat).

Inductive Completion (A : Type) : Type :=
| Normal (a : A)
| Throw (e : Error).
Arguments Normal {A} a.
Arguments Throw {A} e.

(** [child.stdout] is [null] or a stream, given here by the text it
    delivers. *)
Record ChildProcess : Type := mkChild { stdout : option jsstring }.

(** What the promise resolves with: [{ stdout, status }]. *)
Record SpawnResult : Type := mkResult { result_stdout : jsstring; status : nat }.

(** A [SpawnPromise]: the child, how the promise settles, and what the
    child writes by itself to a stdout it inherited from the parent. *)
Record SpawnPromise : Type := mkPromise {
  child : ChildProcess;
  settled : Completion SpawnResult;
  inherited : jsstring
}.

Definition Spawner : Type := string -> list string -> SpawnOptions -> SpawnPromise.

(** The [Logger] capability: [console.log] or an injected one. *)
Inductive Logger : Type := console_log | injected (id : nat).

(** What can be observed of a run. *)
Inductive Event : Type :=
| Log (logger : Logger) (message : string)
| Spawn (command : string) (args : list string) (options : SpawnOptions)
| Pipe                              (* a new PnpmStdoutTransform joins child.stdout to process.stdout *)
| StdoutWrite (chunk : jsstring)    (* the pipe writes to process.stdout *)
| Inherited (chunk : jsstring)      (* the child writes to the stdout it inherited *)
| ExistsSync (path : string)
| RimrafSync (path : string).

Section PackageManager.

Context `{Platform}.

(** Node's [child_process.spawn]: without [env] the child gets
    [process.env]; without [stdio] every stream is a pipe. *)
Definition child_env (o : SpawnOptions) : gmap string string :=
  default process_env (env o).

Definition stdout_kind (o : SpawnOptions) : StdioKind :=
  match stdio o with
  | None => pipe
  | Some (StdioAll k) => k
  | Some (StdioList _ k _) => k
  end.

Definition stderr_kind (o : SpawnOptions) : StdioKind :=
  match stdio o with
  | None => pipe
  | Some (StdioAll k) => k
  | Some (StdioList _ _ k) => k
  end.

(** The default spawner, [@expo/spawn-async] over [child_process.spawn]:
    [child.stdout] is a stream only when stdout is a pipe, an inherited
    stdout goes from the child straight to the terminal, the result
    holds what was read from the pipe, and an exit code other than zero
    rejects. *)
Definition spawnAsync : Spawner := fun command args options =>
  let run := execute command args (child_env options) (cwd options) in
  let piped := match stdout_kind options with pipe => true | _ => false end in
  mkPromise
    (mkChild (if piped then Some (exec_stdout run) else None))
    (match exit_code run with
     | O => Normal (mkResult
                      (if piped && negb (truthy (ignoreStdio options))
                       then exec_stdout run else [])
                      0)
     | S _ => Throw (SpawnError (exit_code run))
     end)
    (match stdout_kind options with inherit => exec_stdout run | _ => [] end).

(** The state of the process: the events so far, the pattern object of
    the module and the file system. *)
Record World : Type := mkWorld {
  trace : list Event;
  pattern : RegExpObject;
  fs : FS
}.

(** The module just loaded. *)
Definition boot (files : FS) : World :=
  mkWorld [] (startPnpmPeerDependencyWarningPattern ansiSource) files.

Definition emit (events : list Event) (w : World) : World :=
  mkWorld (trace w ++ events) (pattern w) (fs w).

(** Asynchronous methods: state passing with rejection. *)
Definition M (A : Type) : Type := World -> Completion A * World.

#[global] Instance M_ret : MRet M := fun A a w => (Normal a, w).
#[global] Instance M_bind : MBind M := fun A B f m w =>
  match m w with
  | (Normal a, w') => f a w'
  | (Throw e, w') => (Throw e, w')
  end.

Definition throw {A} (e : Error) : M A := fun w => (Throw e, w).
Definition tell (events : list Event) : M unit := fun w => (Normal tt, emit events w).

(** [await promise] *)
Definition await (p : SpawnPromise) : M SpawnResult := fun w => (settled p, w).

(** [assert(value, message)] on an optional string; hands back the
    string it found. *)
Definition assert (value : option string) (message : string) : M string :=
  match value with
  | Some (String c s) => mret (String c s)
  | Some EmptyString | None => throw (AssertionError message)
  end.

(** [class PnpmPackageManager] (lines 55-59) *)
Record PnpmPackageManager : Type := mkPnpm {
  options : SpawnOptions;
  log : Logger;
  spawner : Spawner
}.

(** [constructor({ cwd, log, silent, spawner })] (lines 60-75) *)
Definition constructor (cwd : option string) (log : option Logger)
    (silent : option bool) (spawner : option Spawner) : PnpmPackageManager :=
  mkPnpm
    (mkSpawnOptions
       (* { ...process.env, ...DISABLE_ADS_ENV }: the later spread wins *)
       (Some (DISABLE_ADS_ENV ∪ process_env))
       cwd
       (if truthy silent then None else Some (StdioList inherit inherit pipe))
       (if truthy silent then Some true else None))
    (default console_log log)
    (default spawnAsync spawner).

(** [this.log(message)] *)
Definition call_log (this : PnpmPackageManager) (message : string) : M unit :=
  tell [Log (log this) message].

(** [this.spawner(command, args, options)]: the call, and what the child
    sends to an inherited stdout. *)
Definition call_spawner (this : PnpmPackageManager) (command : string)
    (args : list string) (o : SpawnOptions) : M SpawnPromise := fun w =>
  let promise := spawner this command args o in
  (Normal promise,
   emit (Spawn command args o ::
         match inherited promise with [] => [] | chunk => [Inherited chunk] end) w).

(** [stream.pipe(split(...)).pipe(new PnpmStdoutTransform()).pipe(process.stdout)]
    (lines 143-146), run until the stream ends. *)
Definition pipe_stdout (stream : jsstring) : M unit := fun w =>
  let '(chunks, re) := run (pattern w) (split stream) in
  (Normal tt, mkWorld (trace w ++ Pipe :: map StdoutWrite chunks) re (fs w)).

(** [_runAsync(args)] (lines 135-149) *)
Definition _runAsync (this : PnpmPackageManager) (args : list string) : M SpawnResult :=
  (if negb (truthy (ignoreStdio (options this)))
   then call_log this ("> pnpm " +:+ join " " args)
   else mret tt) ;;
  promise ← call_spawner this "pnpm" args (with_ignoreStdio false (options this)) ;
  match stdout (child promise) with
  | Some stream =>
      if negb (truthy (ignoreStdio (options this))) then pipe_stdout stream else mret tt
  | None => mret tt
  end ;;
  await promise.

(** The public operations (lines 81-132). *)
Definition installAsync (this : PnpmPackageManager) : M unit :=
  _runAsync this ["install"] ;; mret tt.

Definition addWithParametersAsync (this : PnpmPackageManager)
    (names parameters : list string) : M unit :=
  match names with
  | [] => installAsync this
  | _ :: _ => _runAsync this ("add" :: parameters ++ names) ;; mret tt
  end.

Definition addAsync (this : PnpmPackageManager) (names : list string) : M unit :=
  addWithParametersAsync this names [].

Definition addDevAsync (this : PnpmPackageManager) (names : list string) : M unit :=
  match names with
  | [] => installAsync this
  | _ :: _ => _runAsync this ("add" :: "--save-dev" :: names) ;; mret tt
  end.

Definition addGlobalAsync (this : PnpmPackageManager) (names : list string) : M unit :=
  match names with
  | [] => installAsync this
  | _ :: _ => _runAsync this ("add" :: "--global" :: names) ;; mret tt
  end.

Definition removeAsync (this : PnpmPackageManager) (names : list string) : M unit :=
  _runAsync this ("remove" :: names) ;; mret tt.

(** [{ stdio: 'pipe' }], the options of the two queries. *)
Definition captured : SpawnOptions := mkSpawnOptions None None (Some (StdioAll pipe)) None.

Definition versionAsync (this : PnpmPackageManager) : M jsstring :=
  promise ← call_spawner this "pnpm" ["--version"] captured ;
  result ← await promise ;
  mret (trim (result_stdout result)).

Definition getConfigAsync (this : PnpmPackageManager) (key : string) : M jsstring :=
  promise ← call_spawner this "pnpm" ["config"; "get"; key] captured ;
  result ← await promise ;
  mret (trim (result_stdout result)).

(** [fs.existsSync(path)] and [rimraf.sync(path)] *)
Definition fs_existsSync (path : string) : M bool := fun w =>
  (Normal (existsSync path (fs w)), emit [ExistsSync path] w).

Definition fs_rimraf (path : string) : M unit := fun w =>
  (Normal tt, mkWorld (trace w ++ [RimrafSync path]) (pattern w) (rimraf_sync path (fs w))).

Definition removeLockfileAsync (this : PnpmPackageManager) : M unit :=
  dir ← assert (cwd (options this)) "cwd required for PnpmPackageManager.removeLockfileAsync" ;
  let lockfilePath := path_join dir "pnpm-lock.yaml" in
  fs_existsSync lockfilePath ≫= fun present : bool =>
  if present then fs_rimraf lockfilePath else mret tt.

Definition cleanAsync (this : PnpmPackageManager) : M unit :=
  dir ← assert (cwd (options this)) "cwd required for PnpmPackageManager.cleanAsync" ;
  let nodeModulesPath := path_join dir "node_modules" in
  fs_existsSync nodeModulesPath ≫= fun present : bool =>
  if present then fs_rimraf nodeModulesPath else mret tt.

End PackageManager.

(** ** Reading a trace *)

(** The argument vectors the spawner was called with, the options of those
    calls, the messages given to the logger, the chunks the pipe wrote to
    [process.stdout], and the text that reached the terminal from the pipe
    or from the child itself. *)
Definition argvs (t : list Event) : list (string * list string) :=
  omap (fun e => match e with Spawn c a _ => Some (c, a) | _ => None end) t.

Definition spawn_options (t : list Event) : list SpawnOptions :=
  omap (fun e => match e with Spawn _ _ o => Some o | _ => None end) t.

Definition logged (t : list Event) : list (Logger * string) :=
  omap (fun e => match e with Log l m => Some (l, m) | _ => None end) t.

Definition written (t : list Event) : list jsstring :=
  omap (fun e => match e with StdoutWrite c => Some c | _ => None end) t.

Definition terminal (t : list Event) : jsstring :=
  concat (omap (fun e => match e with
                         | StdoutWrite c | Inherited c => Some c
                         | _ => None
                         end) t).

Definition is_pipe (e : Event) : bool := match e with Pipe => true | _ => false end.
Definition is_log (e : Event) : bool := match e with Log _ _ => true | _ => false end.
Definition is_spawn (e : Event) : bool := match e with Spawn _ _ _ => true | _ => false end.

(** ** The operations, by name *)

Inductive Operation : Type :=
| Install
| AddWithParameters (names parameters : list string)
| Add (names : list string)
| AddDev (names : list string)
| AddGlobal (names : list string)
| Remove (names : list string)
| Version
| GetConfig (key : string).

(** The operations that go through [_runAsync]; the two queries call the
    spawner themselves. *)
Definition uses_runAsync (op : Operation) : bool :=
  match op with Version | GetConfig _ => false | _ => true end.

Section Perform.

Context `{Platform}.

(** Calling the method of the name, for its effects. *)
Definition perform (op : Operation) (this : PnpmPackageManager) : M unit :=
  match op with
  | Install => installAsync this
  | AddWithParameters names parameters => addWithParametersAsync this names parameters
  | Add names => addAsync this names
  | AddDev names => addDevAsync this names
  | AddGlobal names => addGlobalAsync this names
  | Remove names => removeAsync this names
  | Version => versionAsync this ≫= fun _ => mret tt
  | GetConfig key => getConfigAsync this key ≫= fun _ => mret tt
  end.

(** The events a call adds to the trace. *)
Definition events {A} (m : M A) (w : World) : list Event :=
  drop (length (trace w)) (trace (snd (m w))).

End Perform.

(** ** A platform to evaluate on *)

Module Sample.

Definition newline : jsstring := [10%N].

(** The header line pnpm prints. *)
Definition header : jsstring := js "WARN  Issues with peer dependencies found".

(** The same line as a terminal shows it in colour:
    ESC[43m ESC[30m WARN ESC[39m ESC[49m and the rest. *)
Definition esc (s : string) : jsstring := 27%N :: js s.
Definition styled_header : jsstring :=
  esc "[43m" ++ esc "[30m" ++ js " WARN " ++ esc "[39m" ++ esc "[49m"
  ++ js " Issues with peer dependencies found".

(** A file system as the set of the paths that exist; [rimraf] takes a
    path and everything below it away. *)
Definition below (dir path : string) : bool :=
  bool_decide (path = dir) || String.prefix (dir +:+ "/") path.

(** A machine on which [pnpm] prints [out] and exits with [code], whatever
    it is asked. *)
Definition platform (out : jsstring) (code : nat) : Platform := {|
  ansiSource := AnsiRegex.source;
  DISABLE_ADS_ENV := {[ "DISABLE_OPENCOLLECTIVE" := "1"; "ADBLOCK" := "1" ]};
  process_env := {[ "PATH" := "/usr/bin"; "ADBLOCK" := "0" ]};
  path_join := fun dir name => dir +:+ "/" +:+ name;
  FS := gset string;
  existsSync := fun path files => bool_decide (path ∈ files);
  rimraf_sync := fun path files => filter (fun p => below path p = false) files;
  execute := fun _ _ _ _ => mkExecution out code
|}.

(** A spawner that makes stdout a pipe whatever it is asked, as a test
    double does. *)
Definition piping `{Platform} : Spawner := fun command args o =>
  spawnAsync command args (mkSpawnOptions (env o) (cwd o) (Some (StdioAll pipe)) (ignoreStdio o)).

(** The pattern object of a module just loaded there. *)
Definition fresh : RegExpObject := startPnpmPeerDependencyWarningPattern AnsiRegex.source.

End Sample.

(** The events of one [_runAsync]: the echo of the command line unless
    [ignoreStdio] is set, the call of the spawner with what the child sends
    to an inherited stdout, and the pipe when there is a stream to read. *)
Section Events.

Context `{Platform}.

Definition spawn_events (this : PnpmPackageManager) (command : string)
    (args : list string) (o : SpawnOptions) : list Event :=
  Spawn command args o ::
  match inherited (spawner this command args o) with
  | [] => []
  | chunk => [Inherited chunk]
  end.

Definition pipe_events (re : RegExpObject) (stream : jsstring) : list Event :=
  Pipe :: map StdoutWrite (fst (run re (split stream))).

Definition runAsync_events (this : PnpmPackageManager) (args : list string)
    (re : RegExpObject) : list Event :=
  let o := with_ignoreStdio false (options this) in
  (if truthy (ignoreStdio (options this)) then []
   else [Log (log this) ("> pnpm " +:+ join " " args)])
  ++ spawn_events this "pnpm" args o
  ++ match stdout (child (spawner this "pnpm" args o)) with
     | Some stream =>
         if truthy (ignoreStdio (options this)) then [] else pipe_events re stream
     | None => []
     end.

End Events.

(** The repetition inside [backtrack], with the matcher of the body as a
    parameter: [backtrack (Star a) s] is [star_iter (backtrack a) (length s) s]. *)
Definition star_iter (body : jsstring -> list jsstring) : nat -> jsstring -> list jsstring :=
  fix iter (n : nat) (s : jsstring) {struct n} : list jsstring :=
    match n with
    | O => [s]
    | S n' =>
        flat_map (fun s' => if length s' <? length s then iter n' s' else [])
                 (body s) ++ [s]
    end.

(** The two literal parts of the pattern. *)
Definition WARN : jsstring := js "WARN".
Definition ISSUES : jsstring := js "Issues with peer dependencies found".

(** A line that holds [WARN] and, somewhere after it, the text of the
    warning. *)
Definition mentions_warning (line : jsstring) : Prop :=
  exists pre mid post, line = pre ++ WARN ++ mid ++ ISSUES ++ post.

(** A code unit that [.] matches. *)
Definition not_terminator (c : N) : Prop :=
  c <> 10%N /\ c <> 13%N /\ c <> 8232%N /\ c <> 8233%N.

(** A line in which the pattern finds nothing, wherever the search starts. *)
Definition never_detected (src : regex) (line : jsstring) : Prop :=
  forall i, exec (mkRegExp src i) line = None.

(** * Results *)

(** ** The line filter, one line at a time *)

Section Filter.

Implicit Types (re : RegExpObject) (line : jsstring) (lines : list jsstring).

(** Flag down, header found: the flag goes up and nothing is pushed. *)
Lemma transform_detects re line :
  fst (test re line) = true ->
  _transform line new re = (mkTransform true, snd (test re line), []).
Proof.
  intros Hfound. unfold _transform, new. simpl.
  destruct (test re line) as [found re']. simpl in Hfound. subst found.
  reflexivity.
Qed.

(** Flag down, nothing found: the line is pushed as it came. *)
Lemma transform_passes re line :
  fst (test re line) = false ->
  _transform line new re = (new, snd (test re line), [line]).
Proof.
  intros Hfound. unfold _transform, new. simpl.
  destruct (test re line) as [found re']. simpl in Hfound. subst found.
  reflexivity.
Qed.

(** Flag up, a line that is not empty: nothing moves, [test] is not even
    called. *)
Lemma transform_holds re line :
  line <> [] ->
  _transform line (mkTransform true) re = (mkTransform true, re, []).
Proof. destruct line as [|c t]; [congruence | reflexivity]. Qed.

(** Flag up, the empty line: the flag goes down and the empty line is
    what reaches [push]. *)
Lemma transform_releases re :
  _transform [] (mkTransform true) re = (new, re, [[]]).
Proof. reflexivity. Qed.

Lemma write_all_app lines1 lines2 this re :
  write_all (lines1 ++ lines2) this re =
  let '(this1, re1, out1) := write_all lines1 this re in
  let '(this2, re2, out2) := write_all lines2 this1 re1 in
  (this2, re2, out1 ++ out2).
Proof.
  revert this re. induction lines1 as [|line lines1 IH]; intros this re;
    cbn [write_all app].
  - destruct (write_all lines2 this re) as [[this2 re2] out2]. reflexivity.
  - destruct (_transform line this re) as [[this1 re1] out1].
    rewrite IH.
    destruct (write_all lines1 this1 re1) as [[this' re'] out'].
    destruct (write_all lines2 this' re') as [[this2 re2] out2].
    rewrite app_assoc. reflexivity.
Qed.

(** While the flag is up, lines that are not empty leave no trace. *)
Lemma write_all_held lines re :
  Forall (fun line => line <> []) lines ->
  write_all lines (mkTransform true) re = (mkTransform true, re, []).
Proof.
  induction 1 as [|line lines Hline _ IH]; cbn [write_all]; [reflexivity|].
  rewrite transform_holds by assumption. rewrite IH. reflexivity.
Qed.

Lemma never_detected_test src i line :
  never_detected src line ->
  test (mkRegExp src i) line = (false, mkRegExp src 0).
Proof. intros Hnever. unfold test. rewrite Hnever. reflexivity. Qed.

(** With the flag down, lines in which nothing is found all go through. *)
Lemma write_all_passing lines src i :
  Forall (never_detected src) lines ->
  write_all lines new (mkRegExp src i) =
  (new, mkRegExp src (match lines with [] => i | _ :: _ => 0 end), lines).
Proof.
  intros Hall. revert i.
  induction Hall as [|line lines Hline _ IH]; intros i; cbn [write_all];
    [reflexivity|].
  rewrite transform_passes by (rewrite never_detected_test by assumption; reflexivity).
  rewrite never_detected_test by assumption. cbn [snd].
  rewrite IH. destruct lines; reflexivity.
Qed.

(** The empty string is no header: the pattern needs its [WARN]. *)
Lemma empty_line_not_detected (a : regex) : never_detected (startPnpmPeerDependencyWarningSource a) [].
Proof. intros [|i]; reflexivity. Qed.

Lemma detected_nonempty (a : regex) (i : nat) line :
  fst (test (mkRegExp (startPnpmPeerDependencyWarningSource a) i) line) = true ->
  line <> [].
Proof.
  intros Hfound ->.
  rewrite never_detected_test in Hfound by apply empty_line_not_detected.
  discriminate.
Qed.

Lemma data_app (l1 l2 : list jsstring) : data (l1 ++ l2) = data l1 ++ data l2.
Proof. unfold data. apply List.filter_app. Qed.

End Filter.

(** A finite check is enough to know that a line is never detected: past
    the end of the line [exec] fails at once. *)
Lemma never_detected_check (src : regex) (line : jsstring) :
  forallb (fun i => match exec (mkRegExp src i) line with None => true | Some _ => false end)
          (seq 0 (S (length line))) = true ->
  never_detected src line.
Proof.
  intros Hcheck i. destruct (decide (i <= length line)%nat) as [Hle|Hgt].
  - rewrite List.forallb_forall in Hcheck.
    specialize (Hcheck i). rewrite <- list_elem_of_In, elem_of_seq in Hcheck.
    destruct (exec (mkRegExp src i) line); [|reflexivity].
    discriminate Hcheck. lia.
  - unfold exec. simpl.
    destruct (Nat.ltb_spec (length line) i) as [_|Hle]; [reflexivity | lia].
Qed.

(** ** A suppressed block (C1) *)

(** C1, as amended.  A header line that [test] detects, then N lines that
    are not empty, then one empty line, then further lines in none of which
    the pattern finds anything: nothing is pushed for the header and the N
    lines; on the empty line the flag goes down again and that line
    reaches [push] as a chunk of length zero, which carries no data; the
    further lines are then pushed as they came, in order.  So the data that
    leaves the filter is the further lines that are not empty. *)
Theorem block_then_rest (re : RegExpObject) (header : jsstring) (mids rest : list jsstring) :
  fst (test re header) = true ->
  Forall (fun line => line <> []) mids ->
  Forall (never_detected (source re)) rest ->
  write_all (header :: mids) new re = (mkTransform true, snd (test re header), [])
  /\ write_all (header :: mids ++ [[]]) new re = (new, snd (test re header), [[]])
  /\ snd (write_all (header :: mids ++ [] :: rest) new re) = [] :: rest
  /\ fst (run re (header :: mids ++ [] :: rest)) = data rest.
Proof.
  intros Hheader Hmids Hrest.
  assert (Hblock : write_all (header :: mids) new re
                   = (mkTransform true, snd (test re header), [])).
  { cbn [write_all]. rewrite transform_detects by assumption.
    rewrite write_all_held by assumption. reflexivity. }
  assert (Hend : write_all (header :: mids ++ [[]]) new re
                 = (new, snd (test re header), [[]])).
  { change (header :: mids ++ [[]]) with ((header :: mids) ++ [[]]).
    rewrite write_all_app, Hblock. reflexivity. }
  assert (Hall : snd (write_all (header :: mids ++ [] :: rest) new re) = [] :: rest).
  { replace (header :: mids ++ [] :: rest) with ((header :: mids ++ [[]]) ++ rest)
      by (simpl; rewrite <- app_assoc; reflexivity).
    rewrite write_all_app, Hend.
    assert (Hsrc : source (snd (test re header)) = source re).
    { unfold test. destruct (exec re header); reflexivity. }
    destruct (snd (test re header)) as [src k]. simpl in Hsrc. subst src.
    rewrite write_all_passing by assumption. reflexivity. }
  repeat split; try assumption.
  unfold run.
  destruct (write_all (header :: mids ++ [] :: rest) new re) as [[this' re'] out].
  simpl in Hall. subst out. reflexivity.
Qed.

(** The header in colour, two lines of the warning, the empty line, and two
    lines that follow. *)
Lemma block_then_rest_witness :
  fst (test Sample.fresh Sample.styled_header) = true
  /\ fst (run Sample.fresh
            (Sample.styled_header :: [js "a"; js "b"] ++ [] :: [js "next"; js "done"]))
     = [js "next"; js "done"].
Proof.
  split; [vm_compute; reflexivity|].
  apply (block_then_rest Sample.fresh Sample.styled_header
           [js "a"; js "b"] [js "next"; js "done"]).
  - vm_compute; reflexivity.
  - repeat constructor; discriminate.
  - repeat constructor; apply never_detected_check; vm_compute; reflexivity.
Defined.

(** C1 as it is written fails when a later line is a header again: the
    filter suppresses that block as well, and [more] never comes out. *)
Lemma later_block_not_forwarded :
  let rest := [js "next"; Sample.header; js "more"] in
  fst (test Sample.fresh Sample.header) = true
  /\ Forall (fun line => line <> []) [js "a"]
  /\ fst (run Sample.fresh (Sample.header :: [js "a"] ++ [] :: rest)) = [js "next"]
  /\ fst (run Sample.fresh (Sample.header :: [js "a"] ++ [] :: rest)) <> rest.
Proof.
  repeat split.
  - repeat constructor; discriminate.
  - vm_compute. discriminate.
Qed.

(** ** The pattern keeps a position between calls (C3) *)

(** C3 at its failing input.  The pattern object is global and [test] moves
    its [lastIndex]: a first stream that holds only the header leaves it at
    41, and a second instance, given the same line, searches from there,
    finds nothing and forwards the header.  Within one stream the header of
    a second block that follows the first at once gets through the same
    way, with the lines of its block. *)
Lemma successive_runs_differ :
  let '(out1, re1) := run Sample.fresh [Sample.header] in
  let '(out2, re2) := run re1 [Sample.header] in
  out1 = [] /\ lastIndex re1 = 41 /\ out2 = [Sample.header]
  /\ fst (run Sample.fresh
            [Sample.header; js "a"; []; Sample.header; js "b"; []])
     = [Sample.header; js "b"].
Proof. vm_compute. repeat split. Qed.

(** ** A header inside a block (C6) *)

(** C6.  While the filter is suppressing, a header line changes nothing:
    the flag stays up, nothing is pushed and the pattern is not even
    consulted.  The flag goes down on the empty line and on no other, so a
    second header right after the first gives the run of the first alone. *)
Theorem header_while_suppressing (a : regex) (i j : nat) (h : jsstring) :
  let re k := mkRegExp (startPnpmPeerDependencyWarningSource a) k in
  fst (test (re j) h) = true ->
  _transform h (mkTransform true) (re i) = (mkTransform true, re i, [])
  /\ (forall line,
        isPeerDepsWarning (fst (fst (_transform line (mkTransform true) (re i))))
        = negb (falsy_string line))
  /\ (forall h0 more,
        fst (test (re i) h0) = true ->
        write_all (h0 :: h :: more) new (re i) = write_all (h0 :: more) new (re i)).
Proof.
  intros re Hheader.
  assert (Hne : h <> []) by (eapply detected_nonempty; exact Hheader).
  split; [apply transform_holds; assumption|].
  split.
  - intros [|c t]; reflexivity.
  - intros h0 more Hfirst. cbn [write_all].
    rewrite (transform_detects _ _ Hfirst).
    rewrite transform_holds by assumption.
    destruct (write_all more (mkTransform true) (snd (test (re i) h0)))
      as [[this2 re2] out2].
    reflexivity.
Qed.

Lemma header_while_suppressing_witness :
  write_all (Sample.styled_header :: Sample.header :: [js "a"; []; js "next"])
            new Sample.fresh
  = write_all (Sample.styled_header :: [js "a"; []; js "next"]) new Sample.fresh.
Proof.
  apply (header_while_suppressing AnsiRegex.source 0 0 Sample.header).
  - vm_compute; reflexivity.
  - vm_compute; reflexivity.
Defined.

(** ** What one call does *)

Section Invoker.

Context `{Platform}.

Implicit Types (this : PnpmPackageManager) (w : World) (args names : list string).

Lemma events_app {A} (m : M A) w (new : list Event) :
  trace (snd (m w)) = trace w ++ new -> events m w = new.
Proof. intros Htrace. unfold events. rewrite Htrace. apply drop_app_length. Qed.

(** [_runAsync] adds its events and nothing else. *)
Lemma runAsync_trace this args w :
  trace (snd (_runAsync this args w)) = trace w ++ runAsync_events this args (pattern w).
Proof.
  unfold _runAsync, runAsync_events, spawn_events, pipe_events, call_log, call_spawner,
    pipe_stdout, await, tell, emit, mbind, M_bind, mret, M_ret.
  destruct (truthy (ignoreStdio (options this))); cbn [negb trace pattern fs snd fst].
  - destruct (stdout (child _)); cbn [trace snd]; rewrite ?app_nil_r; reflexivity.
  - destruct (stdout (child _)) as [stream|]; cbn [trace pattern snd].
    + destruct (run (pattern w) (split stream)) as [chunks re].
      cbn [trace snd fst]. rewrite <- !app_assoc. reflexivity.
    + rewrite <- !app_assoc, ?app_nil_r. reflexivity.
Qed.


(** A method that awaits [_runAsync] and returns nothing leaves the trace
    of [_runAsync]. *)
Lemma then_unit_trace this args w :
  trace (snd ((_runAsync this args ≫= fun _ => mret tt) w))
  = trace (snd (_runAsync this args w)).
Proof.
  unfold mbind, M_bind, mret, M_ret.
  destruct (_runAsync this args w) as [[result|e] w']; reflexivity.
Qed.

Lemma then_unit_events this args w :
  events (_runAsync this args ≫= fun _ => mret tt) w
  = runAsync_events this args (pattern w).
Proof. apply events_app. rewrite then_unit_trace. apply runAsync_trace. Qed.

(** Reading the events of [_runAsync]. *)
Lemma argvs_app (t1 t2 : list Event) : argvs (t1 ++ t2) = argvs t1 ++ argvs t2.
Proof. apply omap_app. Qed.

Lemma argvs_writes (chunks : list jsstring) : argvs (map StdoutWrite chunks) = [].
Proof. induction chunks; [reflexivity | assumption]. Qed.

Lemma runAsync_argvs this args re :
  argvs (runAsync_events this args re) = [("pnpm", args)].
Proof.
  unfold runAsync_events, spawn_events, pipe_events. rewrite !argvs_app.
  assert (Hlog : argvs (if truthy (ignoreStdio (options this)) then []
                        else [Log (log this) ("> pnpm " +:+ join " " args)]) = [])
    by (destruct (truthy _); reflexivity).
  rewrite Hlog. cbn [app].
  replace (argvs match stdout (child (spawner this "pnpm" args
                                        (with_ignoreStdio false (options this)))) with
                 | Some stream =>
                     if truthy (ignoreStdio (options this)) then []
                     else Pipe :: map StdoutWrite (fst (run re (split stream)))
                 | None => []
                 end) with (@nil (string * list string)).
  - destruct (inherited _); reflexivity.
  - destruct (stdout _); [|reflexivity].
    destruct (truthy _); [reflexivity|]. symmetry. apply (argvs_writes _).
Qed.

End Invoker.

Section Facade.

Context `{Platform}.

Implicit Types (this : PnpmPackageManager) (w : World) (args names : list string).

Lemma install_events this w :
  events (installAsync this) w = runAsync_events this ["install"] (pattern w).
Proof. apply then_unit_events. Qed.

Lemma remove_events this names w :
  events (removeAsync this names) w = runAsync_events this ("remove" :: names) (pattern w).
Proof. apply then_unit_events. Qed.

Lemma addWithParameters_events this names parameters w :
  names <> [] ->
  events (addWithParametersAsync this names parameters) w
  = runAsync_events this ("add" :: parameters ++ names) (pattern w).
Proof. destruct names; [congruence|]. intros _. apply then_unit_events. Qed.

Lemma addDev_events this names w :
  names <> [] ->
  events (addDevAsync this names) w
  = runAsync_events this ("add" :: "--save-dev" :: names) (pattern w).
Proof. destruct names; [congruence|]. intros _. apply then_unit_events. Qed.

Lemma addGlobal_events this names w :
  names <> [] ->
  events (addGlobalAsync this names) w
  = runAsync_events this ("add" :: "--global" :: names) (pattern w).
Proof. destruct names; [congruence|]. intros _. apply then_unit_events. Qed.

(** Every operation that goes through [_runAsync] does so once. *)
Lemma perform_runAsync op this w :
  uses_runAsync op = true ->
  exists args, events (perform op this) w = runAsync_events this args (pattern w).
Proof.
  destruct op as [|names parameters|names|names|names|names| |key];
    intros Huses; try discriminate; cbn [perform];
    try (destruct names as [|name names]); eexists; apply then_unit_events.
Qed.

(** The two queries call the spawner and do nothing else. *)
Lemma perform_query op this w :
  uses_runAsync op = false ->
  exists args, events (perform op this) w = spawn_events this "pnpm" args captured.
Proof.
  destruct op; intros Huses; try discriminate; cbn [perform];
    unfold versionAsync, getConfigAsync; eexists; apply events_app;
    unfold call_spawner, await, spawn_events, emit, mbind, M_bind, mret, M_ret;
    cbn [trace snd fst]; destruct (settled _); reflexivity.
Qed.

End Facade.

(** ** Argument vectors (C4, C8, C10) *)

(** C4.  With no names, [add], [addWithParameters] (whatever the
    parameters), [addDev] and [addGlobal] are [install]: the same call, and
    the one argument vector they hand to the spawner is [install]. *)
Theorem add_nothing_installs `{Platform} (this : PnpmPackageManager)
    (parameters : list string) (w : World) :
  addAsync this [] w = installAsync this w
  /\ addWithParametersAsync this [] parameters w = installAsync this w
  /\ addDevAsync this [] w = installAsync this w
  /\ addGlobalAsync this [] w = installAsync this w
  /\ argvs (events (installAsync this) w) = [("pnpm", ["install"])].
Proof.
  repeat split. rewrite install_events. apply runAsync_argvs.
Qed.

(** C8.  With names, the argument vector is [add] followed by the
    parameters of the operation and then the names, in the order given. *)
Theorem add_argument_vectors `{Platform} (this : PnpmPackageManager)
    (names parameters : list string) (w : World) :
  names <> [] ->
  argvs (events (addAsync this names) w) = [("pnpm", "add" :: names)]
  /\ argvs (events (addDevAsync this names) w) = [("pnpm", "add" :: "--save-dev" :: names)]
  /\ argvs (events (addGlobalAsync this names) w) = [("pnpm", "add" :: "--global" :: names)]
  /\ argvs (events (addWithParametersAsync this names parameters) w)
     = [("pnpm", "add" :: parameters ++ names)].
Proof.
  intros Hnames. repeat split.
  - unfold addAsync. rewrite addWithParameters_events by assumption. apply runAsync_argvs.
  - rewrite addDev_events by assumption. apply runAsync_argvs.
  - rewrite addGlobal_events by assumption. apply runAsync_argvs.
  - rewrite addWithParameters_events by assumption. apply runAsync_argvs.
Qed.

Lemma add_argument_vectors_witness :
  let _ : Platform := Sample.platform [] 0 in
  let this := constructor (Some "/app") None None None in
  argvs (events (addAsync this ["foo"; "bar"]) (boot ∅)) = [("pnpm", ["add"; "foo"; "bar"])]
  /\ argvs (events (addWithParametersAsync this ["foo"] ["--save-exact"; "-w"]) (boot ∅))
     = [("pnpm", ["add"; "--save-exact"; "-w"; "foo"])].
Proof.
  intros P this.
  split.
  - apply (add_argument_vectors this ["foo"; "bar"] [] (boot ∅)). discriminate.
  - apply (add_argument_vectors this ["foo"] ["--save-exact"; "-w"] (boot ∅)). discriminate.
Defined.

(** C10.  [remove] has no test on its names: with none it calls the spawner
    with [remove] alone, where [add] with none calls it with [install]. *)
Theorem remove_nothing_spawns `{Platform} (this : PnpmPackageManager) (w : World) :
  argvs (events (removeAsync this []) w) = [("pnpm", ["remove"])]
  /\ argvs (events (addAsync this []) w) = [("pnpm", ["install"])].
Proof.
  split.
  - rewrite remove_events. apply runAsync_argvs.
  - change (addAsync this []) with (installAsync this).
    rewrite install_events. apply runAsync_argvs.
Qed.

(** ** The environment of the child (C5) *)

Section Environment.

Context `{Platform}.

Lemma spawn_options_app (t1 t2 : list Event) :
  spawn_options (t1 ++ t2) = spawn_options t1 ++ spawn_options t2.
Proof. apply omap_app. Qed.

Lemma spawn_options_writes (chunks : list jsstring) :
  spawn_options (map StdoutWrite chunks) = [].
Proof. induction chunks; [reflexivity | assumption]. Qed.

Lemma spawn_events_options this command args o :
  spawn_options (spawn_events this command args o) = [o].
Proof. unfold spawn_events. destruct (inherited _); reflexivity. Qed.

Lemma runAsync_options this args re :
  spawn_options (runAsync_events this args re) = [with_ignoreStdio false (options this)].
Proof.
  unfold runAsync_events, pipe_events.
  rewrite !spawn_options_app, spawn_events_options.
  destruct (truthy (ignoreStdio (options this)));
    destruct (stdout _) as [stream|]; try reflexivity.
  change (Pipe :: map StdoutWrite ?c) with ([Pipe] ++ map StdoutWrite c).
  rewrite spawn_options_app, spawn_options_writes. reflexivity.
Qed.

(** The later spread wins: a key of [DISABLE_ADS_ENV] has its value from
    there, any other key its value from [process.env]. *)
Lemma merged_lookup (key : string) :
  (DISABLE_ADS_ENV ∪ process_env) !! key
  = match DISABLE_ADS_ENV !! key with
    | Some v => Some v
    | None => process_env !! key
    end.
Proof.
  rewrite lookup_union.
  destruct (DISABLE_ADS_ENV !! key), (process_env !! key); reflexivity.
Qed.

End Environment.

(** C5, as amended.  The operations that go through [_runAsync] (install,
    the add family, remove) hand the spawner [process.env] merged with
    [DISABLE_ADS_ENV], and on a key that both have the override wins.  The
    two queries, [version] and [getConfig], pass [stdio] alone: no [env],
    so the child gets the environment of the parent as it is. *)
Theorem child_environment `{Platform} (dir : option string) (logger : option Logger)
    (silent : option bool) (custom : option Spawner) (op : Operation) (w : World) :
  let this := constructor dir logger silent custom in
  map child_env (spawn_options (events (perform op this) w))
  = [if uses_runAsync op then DISABLE_ADS_ENV ∪ process_env else process_env]
  /\ map env (spawn_options (events (perform op this) w))
     = [if uses_runAsync op then Some (DISABLE_ADS_ENV ∪ process_env) else None]
  /\ forall key,
       (DISABLE_ADS_ENV ∪ process_env) !! key
       = match DISABLE_ADS_ENV !! key with
         | Some v => Some v
         | None => process_env !! key
         end.
Proof.
  intros this.
  assert (Hoptions : spawn_options (events (perform op this) w)
                     = [if uses_runAsync op then with_ignoreStdio false (options this)
                        else captured]).
  { destruct (uses_runAsync op) eqn:Huses.
    - destruct (perform_runAsync op this w Huses) as [args ->]. apply runAsync_options.
    - destruct (perform_query op this w Huses) as [args ->]. apply spawn_events_options. }
  rewrite Hoptions.
  repeat split; [destruct (uses_runAsync op); reflexivity .. | apply merged_lookup].
Qed.

(** C5 as it is written fails for the queries: where the parent has
    [ADBLOCK=0], the child of [version] keeps it, though the override says
    [1]. *)
Lemma version_environment_not_merged :
  let _ : Platform := Sample.platform [] 0 in
  let this := constructor (Some "/app") None None None in
  let calls := spawn_options (events (perform Version this) (boot ∅)) in
  map env calls = [None]
  /\ map (fun o => child_env o !! "ADBLOCK") calls = [Some "0"]
  /\ (DISABLE_ADS_ENV ∪ process_env) !! "ADBLOCK" = Some "1".
Proof. vm_compute. repeat split. Qed.

(** ** The logger and the filter (C9) *)

Section Silence.

Context `{Platform}.

Lemma spawn_events_quiet this command args o :
  logged (spawn_events this command args o) = []
  /\ List.filter is_pipe (spawn_events this command args o) = [].
Proof. unfold spawn_events. destruct (inherited _); split; reflexivity. Qed.

(** With [ignoreStdio] set, [_runAsync] calls the spawner and that is
    all. *)
Lemma runAsync_events_silent this args re :
  truthy (ignoreStdio (options this)) = true ->
  runAsync_events this args re
  = spawn_events this "pnpm" args (with_ignoreStdio false (options this)).
Proof.
  intros Hsilent. unfold runAsync_events. rewrite Hsilent.
  destruct (stdout _); cbn [app]; apply app_nil_r.
Qed.

Lemma writes_no_log_no_spawn (chunks : list jsstring) :
  Forall (fun e => is_log e = false /\ is_spawn e = false) (map StdoutWrite chunks).
Proof. induction chunks; constructor; [split; reflexivity | assumption]. Qed.

(** Without it, the echo comes first, the call second, and what follows
    is neither. *)
Lemma runAsync_events_loud this args re :
  truthy (ignoreStdio (options this)) = false ->
  exists rest,
    runAsync_events this args re
    = Log (log this) ("> pnpm " +:+ join " " args)
      :: Spawn "pnpm" args (with_ignoreStdio false (options this)) :: rest
    /\ Forall (fun e => is_log e = false /\ is_spawn e = false) rest.
Proof.
  intros Hloud. unfold runAsync_events, spawn_events, pipe_events. rewrite Hloud.
  eexists. split; [reflexivity|].
  apply Forall_app. split.
  - destruct (inherited _); repeat constructor.
  - destruct (stdout _); [|constructor].
    constructor; [split; reflexivity | apply writes_no_log_no_spawn].
Qed.

End Silence.

(** C9, as amended.  An instance made with [silent] never calls the logger
    and never sets up the filter, whatever the operation; nor do the two
    queries, [version] and [getConfig], silent or not.  Without [silent],
    an operation that goes through [_runAsync] calls the logger once, before
    it calls the spawner, with [> pnpm] and the arguments of that call
    joined by spaces; nothing after the call is a log or a second call. *)
Theorem logger_and_filter `{Platform} (dir : option string) (logger : option Logger)
    (silent : option bool) (custom : option Spawner) (op : Operation) (w : World) :
  let this := constructor dir logger silent custom in
  let new := events (perform op this) w in
  if truthy silent || negb (uses_runAsync op) then
    logged new = [] /\ List.filter is_pipe new = [] /\ length (argvs new) = 1
  else
    exists args rest,
      new = Log (default console_log logger) ("> pnpm " +:+ join " " args)
            :: Spawn "pnpm" args (with_ignoreStdio false (options this)) :: rest
      /\ Forall (fun e => is_log e = false /\ is_spawn e = false) rest.
Proof.
  intros this new. subst new.
  assert (Hflag : truthy (ignoreStdio (options this)) = truthy silent)
    by (subst this; cbn; destruct (truthy silent); reflexivity).
  destruct (uses_runAsync op) eqn:Huses.
  - destruct (perform_runAsync op this w Huses) as [args ->].
    destruct (truthy silent) eqn:Hsilent; cbn [orb negb].
    + rewrite runAsync_events_silent by congruence.
      pose proof (spawn_events_quiet this "pnpm" args
                    (with_ignoreStdio false (options this))) as [Hlog Hpipe].
      repeat split; try assumption.
      unfold spawn_events. destruct (inherited _); reflexivity.
    + destruct (runAsync_events_loud this args (pattern w)) as (rest & -> & Hrest);
        [congruence|].
      exists args, rest. split; [reflexivity | assumption].
  - destruct (perform_query op this w Huses) as [args ->].
    rewrite orb_true_r.
    pose proof (spawn_events_quiet this "pnpm" args captured) as [Hlog Hpipe].
    repeat split; try assumption.
    unfold spawn_events. destruct (inherited _); reflexivity.
Qed.

(** C9 as it is written fails for the queries: an instance that is not
    silent runs [pnpm --version] without a word to the logger. *)
Lemma version_not_logged :
  let _ : Platform := Sample.platform (js "9.1.0") 0 in
  let this := constructor (Some "/app") None (Some false) None in
  let new := events (perform Version this) (boot ∅) in
  argvs new = [("pnpm", ["--version"])] /\ logged new = [].
Proof. vm_compute. split; reflexivity. Qed.

(** ** Stdout of an instance that is not silent (C2) *)

Section Interactive.

Context `{Platform}.

Lemma written_app (t1 t2 : list Event) : written (t1 ++ t2) = written t1 ++ written t2.
Proof. apply omap_app. Qed.

Lemma written_writes (chunks : list jsstring) : written (map StdoutWrite chunks) = chunks.
Proof. induction chunks as [|c chunks IH]; [reflexivity|]. cbn. f_equal. exact IH. Qed.

Lemma pipes_writes (chunks : list jsstring) :
  List.filter is_pipe (map StdoutWrite chunks) = [].
Proof. induction chunks; [reflexivity | assumption]. Qed.

Lemma spawn_events_written this command args o :
  written (spawn_events this command args o) = [].
Proof. unfold spawn_events. destruct (inherited _); reflexivity. Qed.

Lemma runAsync_events_written this args re :
  truthy (ignoreStdio (options this)) = false ->
  written (runAsync_events this args re)
  = match stdout (child (spawner this "pnpm" args (with_ignoreStdio false (options this)))) with
    | Some stream => fst (run re (split stream))
    | None => []
    end.
Proof.
  intros Hloud. unfold runAsync_events, pipe_events. rewrite Hloud.
  rewrite !written_app, spawn_events_written.
  destruct (stdout _); [|reflexivity].
  cbn [written omap app]. apply (written_writes _).
Qed.

Lemma runAsync_events_pipes this args re :
  truthy (ignoreStdio (options this)) = false ->
  List.filter is_pipe (runAsync_events this args re)
  = match stdout (child (spawner this "pnpm" args (with_ignoreStdio false (options this)))) with
    | Some _ => [Pipe]
    | None => []
    end.
Proof.
  intros Hloud. unfold runAsync_events, pipe_events. rewrite Hloud.
  rewrite !List.filter_app.
  destruct (spawn_events_quiet this "pnpm" args (with_ignoreStdio false (options this)))
    as [_ ->].
  destruct (stdout _); [|reflexivity].
  cbn [List.filter is_pipe app]. rewrite pipes_writes. reflexivity.
Qed.

End Interactive.

(** Where there is a stream to read.  An instance that is not silent asks
    for an inherited stdout and a piped stderr, and sets nothing up on
    stderr.  When the child of the spawner has a stdout stream all the
    same, one filter is piped between it and [process.stdout], and what is
    written there is what the filter lets through of the pieces of the
    stream cut at [\r?\n], each with a newline put back; when
    [child.stdout] is [null] no filter is set up and nothing is written. *)
Theorem interactive_stdout `{Platform} (dir : option string) (logger : option Logger)
    (silent : option bool) (custom : option Spawner) (args : list string) (w : World) :
  truthy silent = false ->
  let this := constructor dir logger silent custom in
  let promise := spawner this "pnpm" args (with_ignoreStdio false (options this)) in
  let new := events (_runAsync this args) w in
  written new = match stdout (child promise) with
                | Some stream => fst (run (pattern w) (split stream))
                | None => []
                end
  /\ List.filter is_pipe new = match stdout (child promise) with
                               | Some _ => [Pipe]
                               | None => []
                               end
  /\ stdout_kind (options this) = inherit
  /\ stderr_kind (options this) = pipe.
Proof.
  intros Hloud this promise new. subst new promise.
  assert (Hflag : truthy (ignoreStdio (options this)) = false)
    by (subst this; cbn; rewrite Hloud; reflexivity).
  rewrite (events_app (_runAsync this args) w _ (runAsync_trace this args w)).
  split; [apply runAsync_events_written; assumption|].
  split; [apply runAsync_events_pipes; assumption|].
  subst this. unfold stdout_kind, stderr_kind. cbn. rewrite Hloud. split; reflexivity.
Qed.


(** A spawner that pipes stdout, and a child that prints a line and then
    the warning. *)
Lemma interactive_stdout_witness :
  let _ : Platform :=
    Sample.platform (js "Progress" ++ Sample.newline ++ Sample.header ++ Sample.newline
                     ++ js "lodash" ++ Sample.newline) 0 in
  let this := constructor (Some "/app") None None (Some Sample.piping) in
  truthy None = false
  /\ written (events (_runAsync this ["install"]) (boot ∅))
     = [js "Progress" ++ Sample.newline].
Proof.
  intros P this. split; [reflexivity|].
  pose proof (interactive_stdout (Some "/app") None None (Some Sample.piping)
                ["install"] (boot ∅) eq_refl) as [Hwritten _].
  etransitivity; [exact Hwritten|].
  vm_compute. reflexivity.
Defined.

(** C2 at its failing input.  The claim has the stdout of the child pass
    through the filter on its way to the terminal, and lines 142-147 set out
    to do so; but the constructor asks for an inherited stdout, so with the
    spawner the instance has by default [child.stdout] is [null], no filter
    is set up, and the header reaches the terminal from the child itself. *)
Lemma inherited_stdout_not_filtered :
  let printed := Sample.header ++ Sample.newline ++ js "next" ++ Sample.newline in
  let _ : Platform := Sample.platform printed 0 in
  let this := constructor (Some "/app") None None None in
  let new := events (_runAsync this ["install"]) (boot ∅) in
  stdout (child (spawner this "pnpm" ["install"] (with_ignoreStdio false (options this))))
  = None
  /\ List.filter is_pipe new = []
  /\ written new = []
  /\ terminal new = printed
  /\ text (fst (run Sample.fresh (split printed))) <> printed.
Proof. vm_compute. repeat split. discriminate. Qed.

(** ** Removing the lockfile and the modules (C7) *)

(** C7.  Without [cwd] the assertion rejects the call before anything else
    happens: the world is as it was.  With [cwd] and nothing at the path,
    the call asks whether the path exists, learns that it does not, and
    returns: the file system is as it was. *)
Theorem cleanup_needs_cwd `{Platform} (this : PnpmPackageManager) (w : World) :
  (truthy_string (cwd (options this)) = false ->
     removeLockfileAsync this w
     = (Throw (AssertionError "cwd required for PnpmPackageManager.removeLockfileAsync"), w)
     /\ cleanAsync this w
        = (Throw (AssertionError "cwd required for PnpmPackageManager.cleanAsync"), w))
  /\ (forall dir, cwd (options this) = Some dir -> dir <> EmptyString ->
        (existsSync (path_join dir "pnpm-lock.yaml") (fs w) = false ->
           removeLockfileAsync this w
           = (Normal tt,
              mkWorld (trace w ++ [ExistsSync (path_join dir "pnpm-lock.yaml")])
                      (pattern w) (fs w)))
        /\ (existsSync (path_join dir "node_modules") (fs w) = false ->
              cleanAsync this w
              = (Normal tt,
                 mkWorld (trace w ++ [ExistsSync (path_join dir "node_modules")])
                         (pattern w) (fs w)))).
Proof.
  split.
  - intros Hunset. unfold removeLockfileAsync, cleanAsync.
    destruct (cwd (options this)) as [[|c s]|]; try discriminate; split; reflexivity.
  - intros dir Hdir Hne. unfold removeLockfileAsync, cleanAsync. rewrite Hdir.
    destruct dir as [|c s]; [congruence|].
    split; intros Habsent;
      unfold assert, fs_existsSync, emit, mbind, M_bind, mret, M_ret;
      cbn [fs]; rewrite Habsent; reflexivity.
Qed.

Lemma cleanup_needs_cwd_witness :
  let _ : Platform := Sample.platform [] 0 in
  let files : gset string := {[ "/app/package.json" ]} in
  removeLockfileAsync (constructor None None None None) (boot files)
  = (Throw (AssertionError "cwd required for PnpmPackageManager.removeLockfileAsync"),
     boot files)
  /\ fst (cleanAsync (constructor (Some "/app") None None None) (boot files)) = Normal tt
  /\ fs (snd (cleanAsync (constructor (Some "/app") None None None) (boot files))) = files.
Proof.
  intros P files. split.
  - apply (@cleanup_needs_cwd P (constructor None None None None) (@boot P files)).
    reflexivity.
  - destruct (@cleanup_needs_cwd P (constructor (Some "/app") None None None) (@boot P files))
      as [_ Hset].
    destruct (Hset "/app" eq_refl ltac:(discriminate)) as [_ Hclean].
    rewrite Hclean by (vm_compute; reflexivity).
    split; reflexivity.
Defined.

(** * Further properties *)

(** ** What the matcher returns *)

Section Matcher.

Implicit Types (r a : regex) (s y : jsstring).

Lemma backtrack_star a s : backtrack (Star a) s = star_iter (backtrack a) (length s) s.
Proof. reflexivity. Qed.

Lemma star_iter_S (body : jsstring -> list jsstring) n s :
  star_iter body (S n) s
  = flat_map (fun s' => if length s' <? length s then star_iter body n s' else [])
             (body s) ++ [s].
Proof. reflexivity. Qed.

(** Zero iterations is always the last thing [r*] tries. *)
Lemma star_iter_self (body : jsstring -> list jsstring) n s : In s (star_iter body n s).
Proof.
  destruct n; [left; reflexivity|].
  rewrite star_iter_S. apply in_or_app. right. left. reflexivity.
Qed.

(** One more iteration, when it makes progress. *)
Lemma star_iter_step (body : jsstring -> list jsstring) n s s' y :
  In s' (body s) -> length s' < length s -> In y (star_iter body n s') ->
  In y (star_iter body (S n) s).
Proof.
  intros Hbody Hlt Hy. rewrite star_iter_S. apply in_or_app. left.
  apply List.in_flat_map. exists s'. split; [assumption|].
  destruct (Nat.ltb_spec (length s') (length s)); [assumption | lia].
Qed.

Lemma star_iter_suffix (body : jsstring -> list jsstring) :
  (forall s y, In y (body s) -> exists p, s = p ++ y) ->
  forall n s y, In y (star_iter body n s) -> exists p, s = p ++ y.
Proof.
  intros Hbody. induction n as [|n IH]; intros s y Hy.
  - destruct Hy as [<-|[]]. exists []. reflexivity.
  - rewrite star_iter_S in Hy. apply in_app_or in Hy. destruct Hy as [Hy|[<-|[]]]; [|exists []; reflexivity].
    apply List.in_flat_map in Hy. destruct Hy as (s' & Hs' & Hy).
    destruct (length s' <? length s); [|destruct Hy].
    destruct (Hbody _ _ Hs') as [p1 ->].
    destruct (IH _ _ Hy) as [p2 ->].
    exists (p1 ++ p2). rewrite <- app_assoc. reflexivity.
Qed.

(** Whatever the pattern, what is left after a match is a suffix of the
    subject. *)
Lemma backtrack_suffix r : forall s y, In y (backtrack r s) -> exists p, s = p ++ y.
Proof.
  induction r as [|p|r1 IH1 r2 IH2|r1 IH1 r2 IH2|r IH]; intros s y Hy.
  - destruct Hy as [<-|[]]. exists []. reflexivity.
  - destruct s as [|c t]; cbn in Hy; [destruct Hy|].
    destruct (p c); [|destruct Hy]. destruct Hy as [<-|[]]. exists [c]. reflexivity.
  - cbn in Hy. apply List.in_flat_map in Hy. destruct Hy as (m & Hm & Hy).
    destruct (IH1 _ _ Hm) as [p1 ->]. destruct (IH2 _ _ Hy) as [p2 ->].
    exists (p1 ++ p2). rewrite <- app_assoc. reflexivity.
  - cbn in Hy. apply in_app_or in Hy. destruct Hy as [Hy|Hy]; eauto.
  - rewrite backtrack_star in Hy. eapply star_iter_suffix; eassumption.
Qed.

Lemma backtrack_seq_intro r1 r2 s m y :
  In m (backtrack r1 s) -> In y (backtrack r2 m) -> In y (backtrack (Seq r1 r2) s).
Proof. intros Hm Hy. cbn. apply List.in_flat_map. exists m. split; assumption. Qed.

Lemma backtrack_seq_inv r1 r2 s y :
  In y (backtrack (Seq r1 r2) s) -> exists m, In m (backtrack r1 s) /\ In y (backtrack r2 m).
Proof. intros Hy. cbn in Hy. apply List.in_flat_map in Hy. exact Hy. Qed.

(** A literal matches itself and nothing else. *)
Lemma backtrack_lit_intro (l : jsstring) s : In s (backtrack (Lit l) (l ++ s)).
Proof.
  induction l as [|c l IH]; [left; reflexivity|].
  apply (backtrack_seq_intro _ _ _ (l ++ s)); [|exact IH].
  cbn. rewrite N.eqb_refl. left. reflexivity.
Qed.

Lemma backtrack_lit_inv (l : jsstring) : forall s y, In y (backtrack (Lit l) s) -> s = l ++ y.
Proof.
  induction l as [|c l IH]; intros s y Hy.
  - destruct Hy as [<-|[]]. reflexivity.
  - apply backtrack_seq_inv in Hy. destruct Hy as (m & Hm & Hy).
    destruct s as [|c' t]; cbn in Hm; [destruct Hm|].
    destruct (N.eqb_spec c c') as [<-|]; [|destruct Hm].
    destruct Hm as [<-|[]]. rewrite (IH _ _ Hy). reflexivity.
Qed.

Lemma dot_matches (c : N) (t : jsstring) : not_terminator c -> backtrack Dot (c :: t) = [t].
Proof.
  intros (H10 & H13 & H8232 & H8233). cbn.
  destruct (N.eqb_spec c 10), (N.eqb_spec c 13), (N.eqb_spec c 8232), (N.eqb_spec c 8233);
    try contradiction.
  reflexivity.
Qed.

(** [.*] can stop after any run of code units that are not line
    terminators. *)
Lemma star_dot_intro (mid : jsstring) s :
  Forall not_terminator mid -> In s (backtrack (Star Dot) (mid ++ s)).
Proof.
  intros Hmid. rewrite backtrack_star.
  assert (Hgen : forall n, length (mid ++ s) <= n -> In s (star_iter (backtrack Dot) n (mid ++ s))).
  { induction Hmid as [|c mid Hc _ IH]; intros n Hn; [apply star_iter_self|].
    destruct n as [|n]; [cbn in Hn; lia|].
    apply (star_iter_step _ _ _ (mid ++ s)).
    - change ((c :: mid) ++ s) with (c :: (mid ++ s)).
      rewrite dot_matches by assumption. left. reflexivity.
    - cbn. lia.
    - apply IH. cbn in Hn. lia. }
  apply Hgen. lia.
Qed.

(** The scan finds a match as soon as some position has one, and what it
    returns is the end of a match at some position. *)
Lemma scan_eq r n s :
  scan r n s = match backtrack r s with
               | rest :: _ => Some (n - length rest)
               | [] => match s with [] => None | _ :: t => scan r n t end
               end.
Proof. destruct s; reflexivity. Qed.

Lemma scan_complete r n (p s' : jsstring) :
  backtrack r s' <> [] -> is_Some (scan r n (p ++ s')).
Proof.
  intros Hmatch. induction p as [|c p IH]; rewrite scan_eq; cbn [app].
  - destruct (backtrack r s'); [congruence | eexists; reflexivity].
  - destruct (backtrack r (c :: p ++ s')); [exact IH | eexists; reflexivity].
Qed.

Lemma scan_sound r n s e :
  scan r n s = Some e ->
  exists p s' rest, s = p ++ s' /\ In rest (backtrack r s') /\ e = n - length rest.
Proof.
  induction s as [|c t IH]; rewrite scan_eq; intros Hscan.
  - destruct (backtrack r []) as [|rest l] eqn:Hb; [discriminate|].
    injection Hscan as <-. exists [], [], rest. rewrite Hb. repeat split. left. reflexivity.
  - destruct (backtrack r (c :: t)) as [|rest l] eqn:Hb.
    + destruct (IH Hscan) as (p & s' & rest & -> & Hrest & ->).
      exists (c :: p), s', rest. repeat split. assumption.
    + injection Hscan as <-. exists [], (c :: t), rest. rewrite Hb.
      repeat split. left. reflexivity.
Qed.

End Matcher.

(** ** What the pattern detects *)

Section Detection.

Variable a : regex.

Let src := startPnpmPeerDependencyWarningSource a.

(** From the start of [WARN] the pattern matches, with no styling
    sequence taken. *)
Lemma pattern_matches_plain (mid post : jsstring) :
  Forall not_terminator mid ->
  In post (backtrack src (WARN ++ mid ++ ISSUES ++ post)).
Proof.
  intros Hmid. unfold src, startPnpmPeerDependencyWarningSource, ansi.
  eapply backtrack_seq_intro; [rewrite backtrack_star; apply star_iter_self|].
  eapply backtrack_seq_intro; [apply backtrack_lit_intro|].
  eapply backtrack_seq_intro; [rewrite backtrack_star; apply star_iter_self|].
  eapply backtrack_seq_intro; [apply star_dot_intro; assumption|].
  apply backtrack_lit_intro.
Qed.

(** Every match runs over [WARN] and ends with the text of the warning. *)
Lemma pattern_match_shape (s rest : jsstring) :
  In rest (backtrack src s) ->
  exists p mid, s = p ++ WARN ++ mid ++ ISSUES ++ rest.
Proof.
  unfold src, startPnpmPeerDependencyWarningSource, ansi. intros Hrest.
  apply backtrack_seq_inv in Hrest. destruct Hrest as (m1 & Hm1 & Hrest).
  apply backtrack_seq_inv in Hrest. destruct Hrest as (m2 & Hm2 & Hrest).
  apply backtrack_seq_inv in Hrest. destruct Hrest as (m3 & Hm3 & Hrest).
  apply backtrack_seq_inv in Hrest. destruct Hrest as (m4 & Hm4 & Hrest).
  apply backtrack_suffix in Hm1. destruct Hm1 as [p1 ->].
  apply backtrack_lit_inv in Hm2. subst m1.
  apply backtrack_suffix in Hm3. destruct Hm3 as [p3 ->].
  apply backtrack_suffix in Hm4. destruct Hm4 as [p4 ->].
  apply backtrack_lit_inv in Hrest. subst m4.
  exists p1, (p3 ++ p4). rewrite <- !app_assoc. reflexivity.
Qed.

Lemma exec_shape (i e : nat) (line : jsstring) :
  exec (mkRegExp src i) line = Some e ->
  exists pre mid post,
    line = pre ++ WARN ++ mid ++ ISSUES ++ post
    /\ i <= length pre
    /\ e = length (pre ++ WARN ++ mid ++ ISSUES).
Proof.
  unfold exec. cbn [lastIndex source].
  destruct (Nat.ltb_spec (length line) i) as [|Hle]; [discriminate|].
  intros Hscan. apply scan_sound in Hscan.
  destruct Hscan as (p & s' & rest & Hdrop & Hrest & ->).
  apply pattern_match_shape in Hrest. destruct Hrest as (p1 & mid & ->).
  exists (take i line ++ p ++ p1), mid, rest.
  assert (Hline : line = (take i line ++ p ++ p1) ++ WARN ++ mid ++ ISSUES ++ rest).
  { rewrite <- (take_drop i line) at 1. rewrite Hdrop, <- !app_assoc. reflexivity. }
  split; [exact Hline|]. split.
  - rewrite length_app, length_take. lia.
  - rewrite Hline at 1. rewrite !length_app. lia.
Qed.

Lemma exec_finds (i : nat) (pre mid post : jsstring) :
  i <= length pre ->
  Forall not_terminator mid ->
  is_Some (exec (mkRegExp src i) (pre ++ WARN ++ mid ++ ISSUES ++ post)).
Proof.
  intros Hi Hmid. unfold exec. cbn [lastIndex source].
  destruct (Nat.ltb_spec (length (pre ++ WARN ++ mid ++ ISSUES ++ post)) i) as [Hlt|_].
  - rewrite length_app in Hlt. lia.
  - rewrite drop_app_le by assumption.
    apply scan_complete. intros Hnone.
    pose proof (pattern_matches_plain mid post Hmid) as Hin.
    rewrite Hnone in Hin. destruct Hin.
Qed.

Lemma no_mention_never_detected (line : jsstring) :
  ~ mentions_warning line -> never_detected src line.
Proof.
  intros Hno i. destruct (exec (mkRegExp src i) line) as [e|] eqn:Hexec; [|reflexivity].
  destruct (exec_shape _ _ _ Hexec) as (pre & mid & post & -> & _).
  exfalso. apply Hno. exists pre, mid, post. reflexivity.
Qed.

End Detection.

(** X1.  Detection is complete: a line that holds [WARN], then code units
    none of which is a line terminator, then the text of the warning, is
    detected whenever the search starts at or before that [WARN]; what
    stands before, between and after, styling sequences or not, and what
    the styling pattern is, make no difference. *)
Theorem header_detected (a : regex) (i : nat) (pre mid post : jsstring) :
  i <= length pre ->
  Forall not_terminator mid ->
  fst (test (mkRegExp (startPnpmPeerDependencyWarningSource a) i)
            (pre ++ WARN ++ mid ++ ISSUES ++ post)) = true.
Proof.
  intros Hi Hmid. unfold test.
  destruct (exec_finds a i pre mid post Hi Hmid) as [e ->]. reflexivity.
Qed.

Lemma header_detected_witness :
  fst (test Sample.fresh
         ((Sample.esc "[43m" ++ Sample.esc "[30m" ++ js " ") ++ WARN
          ++ (js " " ++ Sample.esc "[39m" ++ Sample.esc "[49m" ++ js " ") ++ ISSUES ++ []))
  = true.
Proof.
  apply (header_detected AnsiRegex.source 0).
  - cbn. lia.
  - repeat constructor; discriminate.
Defined.

(** X2.  Detection is sound: when [test] answers yes, the line holds
    [WARN] at or after the index the search started from and the text of
    the warning after it, and [lastIndex] is left right behind that text. *)
Theorem detected_line_shape (a : regex) (i : nat) (line : jsstring) :
  let re := mkRegExp (startPnpmPeerDependencyWarningSource a) i in
  fst (test re line) = true ->
  exists pre mid post,
    line = pre ++ WARN ++ mid ++ ISSUES ++ post
    /\ i <= length pre
    /\ lastIndex (snd (test re line)) = length (pre ++ WARN ++ mid ++ ISSUES).
Proof.
  intros re. unfold test.
  destruct (exec re line) as [e|] eqn:Hexec; [|discriminate]. intros _.
  destruct (exec_shape a i e line Hexec) as (pre & mid & post & Hline & Hi & He).
  exists pre, mid, post. repeat split; assumption.
Qed.

Lemma detected_line_shape_witness :
  exists pre mid post,
    Sample.styled_header = pre ++ WARN ++ mid ++ ISSUES ++ post
    /\ 0 <= length pre
    /\ lastIndex (snd (test Sample.fresh Sample.styled_header))
       = length (pre ++ WARN ++ mid ++ ISSUES).
Proof.
  apply (detected_line_shape AnsiRegex.source 0 Sample.styled_header).
  vm_compute. reflexivity.
Defined.

(** ** Streams without the warning *)

Lemma unrelated_lines_pass_aux (a : regex) (i : nat) (lines : list jsstring) :
  Forall (fun line => ~ mentions_warning line) lines ->
  write_all lines new (mkRegExp (startPnpmPeerDependencyWarningSource a) i)
  = (new,
     mkRegExp (startPnpmPeerDependencyWarningSource a)
              (match lines with [] => i | _ :: _ => 0 end),
     lines).
Proof.
  intros Hlines. apply write_all_passing.
  eapply Forall_impl; [exact Hlines|].
  intros line Hline. apply no_mention_never_detected. exact Hline.
Qed.

(** X3.  A stream in which no line holds [WARN] followed by the text of
    the warning goes through untouched: the flag never goes up and every
    line is pushed as it came, in order, wherever [lastIndex] stood. *)
Theorem unrelated_lines_pass (a : regex) (i : nat) (lines : list jsstring) :
  let src := startPnpmPeerDependencyWarningSource a in
  Forall (fun line => ~ mentions_warning line) lines ->
  write_all lines new (mkRegExp src i)
  = (new, mkRegExp src (match lines with [] => i | _ :: _ => 0 end), lines).
Proof. intros src Hlines. apply unrelated_lines_pass_aux. exact Hlines. Qed.

Lemma unrelated_lines_pass_witness :
  snd (write_all [js "Progress: resolved 12"; []; js "WARN deprecated left-pad"]
                 new (mkRegExp (startPnpmPeerDependencyWarningSource AnsiRegex.source) 41))
  = [js "Progress: resolved 12"; []; js "WARN deprecated left-pad"].
Proof.
  rewrite (unrelated_lines_pass AnsiRegex.source 41
             [js "Progress: resolved 12"; []; js "WARN deprecated left-pad"]);
    [reflexivity|].
  repeat constructor; intros (pre & mid & post & Hline);
    apply (f_equal length) in Hline; rewrite !length_app in Hline;
    cbn in Hline; lia.
Defined.

(** X4.  The filter only ever drops lines: whatever the lines, the flag and
    the pattern object, what is pushed is a subsequence of what was
    written, with every line as it came. *)
Theorem pushed_is_sublist (lines : list jsstring) (this : PnpmStdoutTransform)
    (re : RegExpObject) :
  sublist (snd (write_all lines this re)) lines
  /\ sublist (fst (run re lines)) lines.
Proof.
  assert (Hpushed : forall lines this re, sublist (snd (write_all lines this re)) lines).
  { clear. induction lines as [|line lines IH]; intros this re; cbn [write_all];
      [constructor|].
    destruct (_transform line this re) as [[this1 re1] out1] eqn:Hstep.
    specialize (IH this1 re1).
    destruct (write_all lines this1 re1) as [[this2 re2] out2]. cbn [snd] in *.
    assert (Hout : out1 = [line] \/ out1 = []).
    { unfold _transform in Hstep.
      destruct (if negb (isPeerDepsWarning this) then test re line else (false, re))
        as [found re'].
      injection Hstep as <- <- <-.
      destruct (negb _); [left | right]; reflexivity. }
    destruct Hout as [-> | ->]; cbn [app].
    - apply sublist_skip. exact IH.
    - apply sublist_cons. exact IH. }
  split; [apply Hpushed|].
  unfold run. specialize (Hpushed lines new re).
  destruct (write_all lines new re) as [[this' re'] out]. cbn [fst snd] in *.
  etransitivity; [|exact Hpushed].
  unfold data. clear. induction out as [|c out IH]; cbn; [constructor|].
  destruct (negb (falsy_string c)); [apply sublist_skip | apply sublist_cons]; exact IH.
Qed.

(** ** The splitter in front of the filter *)

Section Splitter.

Implicit Types (s cur : jsstring) (c : N).

Lemma pieces_lf s cur : pieces (10%N :: s) cur = rev cur :: pieces s [].
Proof. reflexivity. Qed.

Lemma pieces_crlf s cur : pieces (13%N :: 10%N :: s) cur = rev cur :: pieces s [].
Proof. reflexivity. Qed.

(** A carriage return that no line feed follows stays in its piece. *)
Lemma pieces_cr s cur :
  head s <> Some 10%N -> pieces (13%N :: s) cur = pieces s (13%N :: cur).
Proof.
  intros Hhead. destruct s as [|c s]; [reflexivity|].
  destruct (N.eq_dec c 10%N) as [->|Hc]; [cbn in Hhead; congruence|].
  destruct c as [|p]; [reflexivity|].
  do 4 (destruct p as [p|p|]; try reflexivity). congruence.
Qed.

Lemma pieces_other c s cur :
  c <> 10%N -> c <> 13%N -> pieces (c :: s) cur = pieces s (c :: cur).
Proof.
  intros H10 H13. destruct c as [|p]; [reflexivity|].
  do 4 (destruct p as [p|p|]; try reflexivity); congruence.
Qed.

(** The shapes a text can have, as [pieces] reads it. *)
Lemma pieces_ind (P : jsstring -> Prop) :
  P [] ->
  (forall s, P s -> P (10%N :: s)) ->
  (forall s, P s -> P (13%N :: 10%N :: s)) ->
  (forall s, head s <> Some 10%N -> P s -> P (13%N :: s)) ->
  (forall c s, c <> 10%N -> c <> 13%N -> P s -> P (c :: s)) ->
  forall s, P s.
Proof.
  intros Hnil Hlf Hcrlf Hcr Hother s.
  assert (Hlen : forall n s, length s <= n -> P s); [|apply (Hlen (length s)); lia].
  clear s. induction n as [|n IH]; intros [|c s] Hs; try exact Hnil;
    cbn [length] in Hs; [lia|].
  destruct (N.eq_dec c 10%N) as [->|H10]; [apply Hlf, IH; lia|].
  destruct (N.eq_dec c 13%N) as [->|H13]; [|apply Hother; [assumption..|apply IH; lia]].
  destruct s as [|c' s]; [apply Hcr; [discriminate | exact Hnil]|].
  destruct (N.eq_dec c' 10%N) as [->|H10'].
  - apply Hcrlf, IH. cbn [length] in Hs. lia.
  - apply Hcr; [cbn; congruence | apply IH; lia].
Qed.

End Splitter.

Section Pipe.

Implicit Types (s cur stream : jsstring) (re : RegExpObject).

Lemma pieces_no_lf s : forall cur, ~ In 10%N cur -> Forall (fun line => ~ In 10%N line) (pieces s cur).
Proof.
  induction s as [|s IH|s IH|s Hhead IH|c s H10 H13 IH] using pieces_ind; intros cur Hcur.
  - constructor; [|constructor]. rewrite <- in_rev. exact Hcur.
  - rewrite pieces_lf. constructor; [rewrite <- in_rev; exact Hcur|]. apply IH. intros [].
  - rewrite pieces_crlf. constructor; [rewrite <- in_rev; exact Hcur|]. apply IH. intros [].
  - rewrite pieces_cr by assumption. apply IH. intros [Heq|Hin]; [discriminate | auto].
  - rewrite pieces_other by assumption. apply IH. intros [Heq|Hin]; [congruence | auto].
Qed.

Lemma pieces_length s :
  forall cur, length (pieces s cur) = S (length (List.filter (N.eqb 10) s)).
Proof.
  induction s as [|s IH|s IH|s Hhead IH|c s H10 H13 IH] using pieces_ind; intros cur.
  - reflexivity.
  - rewrite pieces_lf. cbn. rewrite IH. reflexivity.
  - rewrite pieces_crlf. cbn. rewrite IH. reflexivity.
  - rewrite pieces_cr by assumption. cbn. apply IH.
  - rewrite pieces_other by assumption. cbn [List.filter].
    destruct (N.eqb_spec 10 c); [congruence | apply IH].
Qed.

(** Without carriage returns, the chunks put together are the text and one
    newline more. *)
Lemma split_text s :
  ~ In 13%N s -> text (split s) = s ++ [10%N].
Proof.
  intros Hcr. unfold text, split.
  assert (Hgen : forall cur,
             concat (map (fun line => line ++ js (String (ascii_of_nat 10) EmptyString))
                         (pieces s cur))
             = rev cur ++ s ++ [10%N]).
  { induction s as [|c s IH]; intros cur.
    - cbn. rewrite app_nil_r. reflexivity.
    - assert (H13 : c <> 13%N) by (intros ->; apply Hcr; left; reflexivity).
      assert (Hcr' : ~ In 13%N s) by (intros Hin; apply Hcr; right; exact Hin).
      destruct (N.eq_dec c 10%N) as [->|H10].
      + rewrite pieces_lf. cbn [map concat]. rewrite (IH Hcr' []).
        cbn. rewrite <- app_assoc. reflexivity.
      + rewrite pieces_other by assumption. rewrite (IH Hcr' (c :: cur)).
        cbn [rev]. rewrite <- app_assoc. reflexivity. }
  apply (Hgen []).
Qed.

Lemma split_nonempty stream : Forall (fun chunk => chunk <> []) (split stream).
Proof.
  unfold split. apply Forall_forall. intros chunk Hin.
  apply list_elem_of_In, List.in_map_iff in Hin. destruct Hin as (line & <- & _).
  destruct line; discriminate.
Qed.

Lemma data_nonempty (chunks : list jsstring) :
  Forall (fun chunk => chunk <> []) chunks -> data chunks = chunks.
Proof.
  induction 1 as [|chunk chunks Hchunk _ IH]; [reflexivity|].
  unfold data in *. cbn. destruct chunk; [congruence|]. cbn. rewrite IH. reflexivity.
Qed.

End Pipe.

(** X5.  Every chunk the splitter hands to the filter is one line: code
    units without a line feed, then the line feed the mapper puts back; and
    a stream with n line feeds gives n + 1 chunks, the empty stream one. *)
Theorem split_chunks_are_lines (stream : jsstring) :
  Forall (fun chunk => exists line, chunk = line ++ [10%N] /\ ~ In 10%N line) (split stream)
  /\ length (split stream) = S (length (List.filter (N.eqb 10) stream)).
Proof.
  split.
  - unfold split. apply Forall_forall. intros chunk Hin.
    apply list_elem_of_In, List.in_map_iff in Hin. destruct Hin as (line & <- & Hline).
    exists line. split; [reflexivity|].
    pose proof (pieces_no_lf stream [] (fun H => H)) as Hall.
    rewrite Forall_forall in Hall. apply Hall, list_elem_of_In. exact Hline.
  - unfold split. rewrite length_map. apply pieces_length.
Qed.

(** X6.  Through the pipe of [_runAsync], a stream without carriage returns
    none of whose lines holds the warning comes out as it is, followed by
    one more newline: the last piece, empty when the stream ends in a
    newline, goes through the mapper as well. *)
Theorem pipe_is_transparent (a : regex) (i : nat) (stream : jsstring) :
  ~ In 13%N stream ->
  Forall (fun chunk => ~ mentions_warning chunk) (split stream) ->
  text (fst (run (mkRegExp (startPnpmPeerDependencyWarningSource a) i) (split stream)))
  = stream ++ [10%N].
Proof.
  intros Hcr Hlines. unfold run.
  rewrite (unrelated_lines_pass_aux a i (split stream) Hlines).
  rewrite data_nonempty by apply split_nonempty.
  apply split_text. exact Hcr.
Qed.

(** A line too short to hold the warning. *)
Ltac too_short :=
  let H := fresh in
  intros (? & ? & ? & H); apply (f_equal length) in H;
  rewrite !length_app in H; cbn in H; lia.

Lemma pipe_is_transparent_witness :
  text (fst (run Sample.fresh
               (split (js "Progress" ++ Sample.newline ++ js "Done" ++ Sample.newline))))
  = (js "Progress" ++ Sample.newline ++ js "Done" ++ Sample.newline) ++ [10%N].
Proof.
  apply (pipe_is_transparent AnsiRegex.source 0).
  - cbn. intros H. repeat (destruct H as [H|H]; [discriminate H|]). exact H.
  - assert (Hsplit : split (js "Progress" ++ Sample.newline ++ js "Done" ++ Sample.newline)
                     = [js "Progress" ++ Sample.newline; js "Done" ++ Sample.newline;
                        Sample.newline])
      by (vm_compute; reflexivity).
    rewrite Hsplit. repeat constructor; too_short.
Defined.

(** X7.  In the pipe no chunk is empty, so nothing lowers the flag again:
    once a chunk is detected as the header, that chunk and everything after
    it, to the end of the stream, is held back, and what was written before
    is all that is written. *)
Theorem pipe_never_resumes (re : RegExpObject) (stream : jsstring)
    (pre : list jsstring) (h : jsstring) (post : list jsstring) :
  split stream = pre ++ h :: post ->
  Forall (never_detected (source re)) pre ->
  fst (test (mkRegExp (source re) (match pre with [] => lastIndex re | _ :: _ => 0 end)) h)
  = true ->
  fst (run re (split stream)) = pre
  /\ isPeerDepsWarning (fst (fst (write_all (split stream) new re))) = true.
Proof.
  intros Hsplit Hpre Hheader.
  pose proof (split_nonempty stream) as Hne. rewrite Hsplit in Hne.
  apply Forall_app in Hne. destruct Hne as [Hne_pre Hne_post].
  apply Forall_cons in Hne_post. destruct Hne_post as [_ Hne_post].
  unfold run. rewrite Hsplit, write_all_app.
  destruct re as [src i]. cbn [source lastIndex] in *.
  rewrite write_all_passing by assumption.
  cbn [write_all]. rewrite transform_detects by assumption.
  rewrite write_all_held by assumption.
  cbn [fst snd isPeerDepsWarning]. rewrite !app_nil_r.
  split; [apply data_nonempty; assumption | reflexivity].
Qed.

Lemma pipe_never_resumes_witness :
  let stream := js "Progress" ++ Sample.newline ++ Sample.header ++ Sample.newline
                ++ js "lodash" ++ Sample.newline ++ Sample.newline
                ++ js "next" ++ Sample.newline in
  fst (run Sample.fresh (split stream)) = [js "Progress" ++ Sample.newline].
Proof.
  intros stream.
  apply (pipe_never_resumes Sample.fresh stream [js "Progress" ++ Sample.newline]
           (Sample.header ++ Sample.newline)
           [js "lodash" ++ Sample.newline; Sample.newline; js "next" ++ Sample.newline;
            Sample.newline]).
  - vm_compute. reflexivity.
  - repeat constructor. apply never_detected_check. vm_compute. reflexivity.
  - vm_compute. reflexivity.
Defined.

(** ** How a call ends *)

Section Settling.

Context `{Platform}.

Implicit Types (this : PnpmPackageManager) (w : World) (args : list string).

(** [_runAsync] ends the way the promise of the spawner does. *)
Lemma runAsync_result this args w :
  fst (_runAsync this args w)
  = settled (spawner this "pnpm" args (with_ignoreStdio false (options this))).
Proof.
  unfold _runAsync, call_log, call_spawner, pipe_stdout, await, tell, emit,
    mbind, M_bind, mret, M_ret.
  destruct (truthy (ignoreStdio (options this))); cbn [negb fst snd];
    destruct (stdout (child _)) as [stream|]; cbn [fst snd]; try reflexivity.
  destruct (run _ (split stream)). reflexivity.
Qed.

Lemma then_unit_result this args w :
  fst ((_runAsync this args ≫= fun _ => mret tt) w)
  = match settled (spawner this "pnpm" args (with_ignoreStdio false (options this))) with
    | Normal _ => Normal tt
    | Throw e => Throw e
    end.
Proof.
  rewrite <- (runAsync_result this args w). unfold mbind, M_bind, mret, M_ret.
  destruct (_runAsync this args w) as [[result|e] w']; reflexivity.
Qed.

(** The operations of [_runAsync] are [_runAsync] with some arguments,
    awaited. *)
Lemma perform_is_runAsync (op : Operation) this :
  uses_runAsync op = true ->
  exists args, perform op this = (_runAsync this args ≫= fun _ => mret tt).
Proof.
  destruct op as [|names parameters|names|names|names|names| |key];
    intros Huses; try discriminate; cbn [perform];
    try (destruct names as [|name names]); eexists; reflexivity.
Qed.

End Settling.

(** X8.  An operation that goes through [_runAsync] ends as the promise of
    its one spawner call ends: it returns when that resolves and rejects
    with the same error when that rejects; nothing is retried and no error
    is swallowed. *)
Theorem rejection_propagates `{Platform} (op : Operation) (this : PnpmPackageManager)
    (w : World) :
  uses_runAsync op = true ->
  exists args,
    argvs (events (perform op this) w) = [("pnpm", args)]
    /\ fst (perform op this w)
       = match settled (spawner this "pnpm" args (with_ignoreStdio false (options this))) with
         | Normal _ => Normal tt
         | Throw e => Throw e
         end.
Proof.
  intros Huses.
  destruct (perform_is_runAsync op this Huses) as [args ->].
  exists args. split.
  - rewrite then_unit_events. apply runAsync_argvs.
  - apply then_unit_result.
Qed.

(** A run of [pnpm] that exits with 1. *)
Lemma rejection_propagates_witness :
  let _ : Platform := Sample.platform [] 1 in
  let this := constructor (Some "/app") None None None in
  (exists args,
     argvs (events (perform (Add ["left-pad"]) this) (boot ∅)) = [("pnpm", args)]
     /\ fst (perform (Add ["left-pad"]) this (boot ∅))
        = match settled (spawner this "pnpm" args (with_ignoreStdio false (options this))) with
          | Normal _ => Normal tt
          | Throw e => Throw e
          end)
  /\ fst (perform (Add ["left-pad"]) this (boot ∅)) = Throw (SpawnError 1).
Proof.
  intros P this. split.
  - apply (@rejection_propagates P (Add ["left-pad"]) this (@boot P ∅)). reflexivity.
  - vm_compute. reflexivity.
Defined.

(** ** What the queries return *)

Section Trim.

Implicit Types (s : jsstring).

Lemma trimStart_spec s :
  exists l,
    s = l ++ trimStart s
    /\ Forall (fun c => isWhiteSpace c = true) l
    /\ (forall c, head (trimStart s) = Some c -> isWhiteSpace c = false).
Proof.
  induction s as [|c s (l & Hs & Hl & Hhead)].
  - exists []. repeat split; [constructor | discriminate].
  - cbn [trimStart]. destruct (isWhiteSpace c) eqn:Hc.
    + exists (c :: l). repeat split.
      * cbn. f_equal. exact Hs.
      * constructor; assumption.
      * exact Hhead.
    + exists []. repeat split; [constructor|].
      intros c' Hc'. injection Hc' as <-. exact Hc.
Qed.

(** [trim] takes white space away at both ends and nothing else. *)
Lemma trim_spec s :
  exists l t,
    s = l ++ trim s ++ t
    /\ Forall (fun c => isWhiteSpace c = true) l
    /\ Forall (fun c => isWhiteSpace c = true) t
    /\ (forall c, head (trim s) = Some c -> isWhiteSpace c = false)
    /\ (forall c, last (trim s) = Some c -> isWhiteSpace c = false).
Proof.
  unfold trim.
  destruct (trimStart_spec s) as (l & Hs & Hl & Hhead).
  destruct (trimStart_spec (rev (trimStart s))) as (t & Hrev & Ht & Hlast).
  assert (Hmiddle : trimStart s = rev (trimStart (rev (trimStart s))) ++ rev t).
  { rewrite <- rev_app_distr, <- Hrev, rev_involutive. reflexivity. }
  exists l, (rev t). repeat split.
  - rewrite <- Hmiddle. exact Hs.
  - exact Hl.
  - apply Forall_forall. intros c Hc. rewrite Forall_forall in Ht. apply Ht.
    apply list_elem_of_In. apply list_elem_of_In in Hc. apply in_rev. exact Hc.
  - intros c Hc. apply Hhead. rewrite Hmiddle.
    destruct (rev (trimStart (rev (trimStart s)))); [discriminate | exact Hc].
  - intros c Hc. apply Hlast.
    destruct (trimStart (rev (trimStart s))) as [|y ys]; [discriminate|].
    cbn [rev] in Hc. rewrite last_snoc in Hc. exact Hc.
Qed.

End Trim.

(** X9.  [version] and [getConfig] give back what the spawner captured on
    stdout with the white space at both ends taken away and nothing else
    changed: the answer neither starts nor ends with white space, and the
    captured text is the answer between two runs of white space. *)
Theorem query_result_trimmed `{Platform} (this : PnpmPackageManager) (key : string)
    (w : World) :
  let trimmed args v :=
    exists result l t,
      settled (spawner this "pnpm" args captured) = Normal result
      /\ result_stdout result = l ++ v ++ t
      /\ Forall (fun c => isWhiteSpace c = true) l
      /\ Forall (fun c => isWhiteSpace c = true) t
      /\ (forall c, head v = Some c -> isWhiteSpace c = false)
      /\ (forall c, last v = Some c -> isWhiteSpace c = false) in
  (forall v, fst (versionAsync this w) = Normal v -> trimmed ["--version"] v)
  /\ (forall v, fst (getConfigAsync this key w) = Normal v -> trimmed ["config"; "get"; key] v).
Proof.
  intros trimmed. subst trimmed.
  split; intros v;
    unfold versionAsync, getConfigAsync, call_spawner, await, mbind, M_bind, mret, M_ret;
    cbn [fst snd];
    destruct (settled _) as [result|e] eqn:Hsettled; cbn [fst]; try discriminate;
    intros Hv; injection Hv as <-;
    destruct (trim_spec (result_stdout result)) as (l & t & Hs & Hl & Ht & Hhead & Hlast);
    exists result, l, t; repeat split; assumption.
Qed.

Lemma query_result_trimmed_witness :
  let _ : Platform := Sample.platform (js "  9.1.0" ++ Sample.newline) 0 in
  let this := constructor (Some "/app") None None None in
  fst (versionAsync this (boot ∅)) = Normal (js "9.1.0")
  /\ (forall c, head (js "9.1.0") = Some c -> isWhiteSpace c = false).
Proof.
  intros P this.
  assert (Hanswer : fst (versionAsync this (@boot P ∅)) = Normal (js "9.1.0"))
    by (vm_compute; reflexivity).
  split; [exact Hanswer|].
  destruct (@query_result_trimmed P this "registry" (@boot P ∅)) as [Hversion _].
  destruct (Hversion _ Hanswer) as (result & l & t & _ & _ & _ & _ & Hhead & _).
  exact Hhead.
Defined.

(** ** Processes and files keep apart *)

Section Frame.

Context `{Platform}.

Implicit Types (this : PnpmPackageManager) (w : World) (args : list string).






(** The events of the two clean-up methods, case by case. *)
Lemma cleanup_events (message name : string) this w :
  let m := assert (cwd (options this)) message ≫= fun dir =>
           fs_existsSync (path_join dir name) ≫= fun present : bool =>
           if present then fs_rimraf (path_join dir name) else mret tt in
  (argvs (events m w) = [] /\ logged (events m w) = [] /\ written (events m w) = [])
  /\ pattern (snd (m w)) = pattern w.
Proof.
  intros m. subst m.
  unfold events, assert, fs_existsSync, fs_rimraf, emit, throw, mbind, M_bind, mret, M_ret.
  destruct (cwd (options this)) as [[|c dir]|]; cbn [fst snd trace pattern];
    rewrite ?drop_all; try (repeat split; reflexivity).
  destruct (existsSync _ (fs w)); cbn [snd trace pattern];
    rewrite <- ?app_assoc, drop_app_length; repeat split; reflexivity.
Qed.

End Frame.


(** X11.  [removeLockfile] and [clean] never call the spawner or the logger
    and never write to stdout, and they leave the pattern object alone,
    whether they reject, find nothing or delete. *)
Theorem cleanup_spawns_nothing `{Platform} (this : PnpmPackageManager) (w : World) :
  (argvs (events (removeLockfileAsync this) w) = []
   /\ logged (events (removeLockfileAsync this) w) = []
   /\ written (events (removeLockfileAsync this) w) = [])
  /\ pattern (snd (removeLockfileAsync this w)) = pattern w
  /\ (argvs (events (cleanAsync this) w) = []
      /\ logged (events (cleanAsync this) w) = []
      /\ written (events (cleanAsync this) w) = [])
  /\ pattern (snd (cleanAsync this w)) = pattern w.
Proof.
  destruct (cleanup_events "cwd required for PnpmPackageManager.removeLockfileAsync"
              "pnpm-lock.yaml" this w) as [Hlock Hlock_pattern].
  destruct (cleanup_events "cwd required for PnpmPackageManager.cleanAsync"
              "node_modules" this w) as [Hclean Hclean_pattern].
  repeat split; first [apply Hlock | apply Hclean | assumption].
Qed.

(** ** Deleting *)

Section Deleting.

Context `{Platform}.


End Deleting.




(** ** The options of a call *)

(** X13.  The directory given to the constructor is the [cwd] of every call
    made through [_runAsync] and of no query.  The spawner is never told to
    ignore stdio: a silent instance passes [ignoreStdio: false] and no
    [stdio], so its child gets pipes; an instance that is not silent asks
    for an inherited stdout; a query asks for pipes. *)
Theorem call_options `{Platform} (dir : option string) (logger : option Logger)
    (silent : option bool) (custom : option Spawner) (op : Operation) (w : World) :
  let this := constructor dir logger silent custom in
  let calls := spawn_options (events (perform op this) w) in
  map cwd calls = [if uses_runAsync op then dir else None]
  /\ map ignoreStdio calls = [if uses_runAsync op then Some false else None]
  /\ map stdout_kind calls
     = [if uses_runAsync op then (if truthy silent then pipe else inherit) else pipe].
Proof.
  intros this calls. subst calls.
  destruct (uses_runAsync op) eqn:Huses.
  - destruct (perform_runAsync op this w Huses) as [args ->].
    rewrite runAsync_options. subst this. cbn.
    unfold stdout_kind. cbn. destruct (truthy silent); repeat split; reflexivity.
  - destruct (perform_query op this w Huses) as [args ->].
    rewrite spawn_events_options. repeat split; reflexivity.
Qed.

(** ** The same header twice *)

(** X14.  [test] leaves [lastIndex] behind the text of the warning and the
    flag keeps it there through the block, so the search in the first line
    after the block starts from that index.  When that line is the same
    header again, and the text of the warning stands so near its end that
    no second [WARN] and warning fit after that index, nothing is found:
    the header of the second block is pushed and the flag stays down. *)
Theorem repeated_header_forwarded (a : regex) (i : nat) (h : jsstring)
    (mids : list jsstring) :
  let src := startPnpmPeerDependencyWarningSource a in
  let re := mkRegExp src i in
  fst (test re h) = true ->
  length h < lastIndex (snd (test re h)) + length WARN + length ISSUES ->
  Forall (fun line => line <> []) mids ->
  write_all (h :: mids ++ [[]; h]) new re = (new, mkRegExp src 0, [[]; h]).
Proof.
  intros src re Hfound Hshort Hmids.
  assert (Hsrc : exists e, snd (test re h) = mkRegExp src e).
  { unfold test. destruct (exec re h); eexists; reflexivity. }
  destruct Hsrc as [e He]. rewrite He in Hshort. cbn [lastIndex] in Hshort.
  assert (Hmiss : exec (mkRegExp src e) h = None).
  { destruct (exec (mkRegExp src e) h) as [e'|] eqn:Hexec; [|reflexivity].
    destruct (exec_shape a e e' h Hexec) as (pre & mid & post & Hline & Hpre & _).
    exfalso. apply (f_equal length) in Hline. rewrite !length_app in Hline. lia. }
  cbn [write_all]. rewrite transform_detects by assumption. rewrite He.
  rewrite write_all_app, write_all_held by assumption.
  cbn [write_all]. rewrite transform_releases.
  rewrite transform_passes by (unfold test; rewrite Hmiss; reflexivity).
  unfold test. rewrite Hmiss. reflexivity.
Qed.

Lemma repeated_header_forwarded_witness :
  write_all (Sample.styled_header :: [js "lodash"; js "react"] ++ [[]; Sample.styled_header])
            new Sample.fresh
  = (new, Sample.fresh, [[]; Sample.styled_header]).
Proof.
  apply (repeated_header_forwarded AnsiRegex.source 0 Sample.styled_header
           [js "lodash"; js "react"]).
  - vm_compute. reflexivity.
  - vm_compute. lia.
  - repeat constructor; discriminate.
Defined.
